(** * picoclaw-docker: the management console's core, verified

    A shallow embedding of [server.py]:
    - the secret-aware configuration engine ([SECRET_FIELDS],
      [default_config], [mask_secrets], [merge_secrets]);
    - the process supervisor ([GatewayManager]: [start], [stop],
      [restart], [_read_output], [get_status]) with its bounded log
      buffer, run by a cooperative scheduler that switches tasks only at
      [await].

    Definitions come first, theorems after them. *)

From Stdlib Require Import ZArith QArith Floats.SpecFloat.
From stdpp Require Import base list strings pretty.

Local Open Scope string_scope.

(* ===================================================================== *)
(** * Part I: definitions *)
(* ===================================================================== *)

(** ** Python strings

    A [str] is modelled by [string]; each [ascii] stands for one character.
    The engine only slices, measures, compares and concatenates strings. *)

(** [s.endswith(suffix)] *)
Definition endswith (s suffix : string) : bool :=
  (String.length suffix <=? String.length s)%nat
  && String.eqb
       (String.substring (String.length s - String.length suffix)
                         (String.length suffix) s)
       suffix.

(** ** JSON values, as [json.loads] builds them

    A [dict] keeps its items in insertion order and never holds a key
    twice; the item list of a [JDict] is that sequence.  [unique_keys]
    states the second half, which every value built by Python satisfies. *)

Unset Elimination Schemes.
Inductive json : Type :=
| JNull
| JBool (b : bool)
| JInt (n : Z)
| JFloat (x : spec_float)
| JStr (s : string)
| JList (l : list json)
| JDict (d : list (string * json)).
Set Elimination Schemes.

(** Induction on documents: the children of a list or dict satisfy the
    property. *)

Section json_induction.
Variable P : json -> Prop.
Hypothesis Hnull : P JNull.
Hypothesis Hbool : forall b, P (JBool b).
Hypothesis Hint : forall n, P (JInt n).
Hypothesis Hfloat : forall x, P (JFloat x).
Hypothesis Hstr : forall s, P (JStr s).
Hypothesis Hlist : forall l, Forall P l -> P (JList l).
Hypothesis Hdict : forall d, Forall (fun kv => P (snd kv)) d -> P (JDict d).

Fixpoint json_ind (j : json) : P j :=
  match j with
  | JNull => Hnull
  | JBool b => Hbool b
  | JInt n => Hint n
  | JFloat x => Hfloat x
  | JStr s => Hstr s
  | JList l =>
      Hlist l
        ((fix children (l : list json) : Forall P l :=
            match l with
            | [] => List.Forall_nil P
            | x :: l' => List.Forall_cons P x l' (json_ind x) (children l')
            end) l)
  | JDict d =>
      Hdict d
        ((fix items (d : list (string * json)) : Forall (fun kv => P (snd kv)) d :=
            match d with
            | [] => List.Forall_nil _
            | kv :: d' => List.Forall_cons _ kv d' (json_ind (snd kv)) (items d')
            end) d)
  end.
End json_induction.

Definition keys (d : list (string * json)) : list string := map fst d.

Fixpoint unique_keys (j : json) : bool :=
  match j with
  | JDict d =>
      bool_decide (NoDup (map fst d))
      && forallb (fun kv => unique_keys (snd kv)) d
  | JList l => forallb unique_keys l
  | _ => true
  end.

Definition is_dict (j : json) : bool :=
  match j with JDict _ => true | _ => false end.

Definition is_str (j : json) : bool :=
  match j with JStr _ => true | _ => false end.

(** [d[k]] when the key is present *)
Fixpoint dict_lookup (k : string) (d : list (string * json)) : option json :=
  match d with
  | [] => None
  | (k', x) :: d' => if String.eqb k' k then Some x else dict_lookup k d'
  end.

(** [d.get(k, dflt)] *)
Definition dict_get (d : list (string * json)) (k : string) (dflt : json) : json :=
  default dflt (dict_lookup k d).

(** [d[k] = x]: an existing key keeps its position, a new key goes last *)
Fixpoint dict_set (k : string) (x : json) (d : list (string * json))
  : list (string * json) :=
  match d with
  | [] => [(k, x)]
  | (k', x') :: d' =>
      if String.eqb k' k then (k, x) :: d' else (k', x') :: dict_set k x d'
  end.

(** Walking down a document along dict keys. *)
Fixpoint lookup_path (p : list string) (j : json) : option json :=
  match p with
  | [] => Some j
  | k :: p' =>
      match j with
      | JDict d =>
          match dict_lookup k d with
          | Some x => lookup_path p' x
          | None => None
          end
      | _ => None
      end
  end.

(** ** The secret classifier *)

(** The constant set is only ever used through [k in SECRET_FIELDS]; it is
    kept as the list of its members. *)
Definition SECRET_FIELDS : list string :=
  [ "api_key"; "token"; "app_secret"; "encrypt_key";
    "verification_token"; "bot_token"; "app_token";
    "channel_secret"; "channel_access_token"; "client_secret" ].

(** ** The built-in default document *)

(** The [float] literal [0.7]: 0x3FE6666666666666. *)
Definition float_0_7 : spec_float :=
  S754_finite false 6305039478318694%positive (-53)%Z.

Definition default_config : json :=
  JDict [
    ("agents", JDict [
      ("defaults", JDict [
        ("workspace", JStr "~/.picoclaw/workspace");
        ("restrict_to_workspace", JBool true);
        ("provider", JStr "");
        ("model", JStr "glm-4.7");
        ("max_tokens", JInt 8192);
        ("temperature", JFloat float_0_7);
        ("max_tool_iterations", JInt 20) ]) ]);
    ("channels", JDict [
      ("telegram", JDict [("enabled", JBool false); ("token", JStr "");
                          ("proxy", JStr ""); ("allow_from", JList [])]);
      ("discord", JDict [("enabled", JBool false); ("token", JStr "");
                         ("allow_from", JList [])]);
      ("slack", JDict [("enabled", JBool false); ("bot_token", JStr "");
                       ("app_token", JStr ""); ("allow_from", JList [])]);
      ("whatsapp", JDict [("enabled", JBool false);
                          ("bridge_url", JStr "ws://localhost:3001");
                          ("allow_from", JList [])]);
      ("feishu", JDict [("enabled", JBool false); ("app_id", JStr "");
                        ("app_secret", JStr ""); ("encrypt_key", JStr "");
                        ("verification_token", JStr "");
                        ("allow_from", JList [])]);
      ("dingtalk", JDict [("enabled", JBool false); ("client_id", JStr "");
                          ("client_secret", JStr "");
                          ("allow_from", JList [])]);
      ("qq", JDict [("enabled", JBool false); ("app_id", JStr "");
                    ("app_secret", JStr ""); ("allow_from", JList [])]);
      ("line", JDict [("enabled", JBool false); ("channel_secret", JStr "");
                      ("channel_access_token", JStr "");
                      ("webhook_host", JStr "0.0.0.0");
                      ("webhook_port", JInt 18791);
                      ("webhook_path", JStr "/webhook/line");
                      ("allow_from", JList [])]);
      ("maixcam", JDict [("enabled", JBool false); ("host", JStr "0.0.0.0");
                         ("port", JInt 18790); ("allow_from", JList [])]) ]);
    ("providers", JDict [
      ("anthropic", JDict [("api_key", JStr "")]);
      ("openai", JDict [("api_key", JStr ""); ("api_base", JStr "")]);
      ("openrouter", JDict [("api_key", JStr "")]);
      ("deepseek", JDict [("api_key", JStr "")]);
      ("groq", JDict [("api_key", JStr "")]);
      ("gemini", JDict [("api_key", JStr "")]);
      ("zhipu", JDict [("api_key", JStr ""); ("api_base", JStr "")]);
      ("vllm", JDict [("api_key", JStr ""); ("api_base", JStr "")]);
      ("nvidia", JDict [("api_key", JStr ""); ("api_base", JStr "")]);
      ("moonshot", JDict [("api_key", JStr "")]) ]);
    ("gateway", JDict [("host", JStr "0.0.0.0"); ("port", JInt 18790)]);
    ("tools", JDict [
      ("web", JDict [
        ("brave", JDict [("enabled", JBool false); ("api_key", JStr "");
                         ("max_results", JInt 5)]);
        ("duckduckgo", JDict [("enabled", JBool true);
                              ("max_results", JInt 5)]) ]) ]);
    ("heartbeat", JDict [("enabled", JBool true); ("interval", JInt 30)]);
    ("devices", JDict [("enabled", JBool false); ("monitor_usb", JBool false)])
  ].

(** ** The mask engine (read path) *)

(** [v[:8] + "***" if len(v) > 8 else "***"] *)
Definition mask_value (v : string) : string :=
  if (8 <? String.length v)%nat then String.substring 0 8 v +:+ "***"
  else "***".

(** [mask_secrets(data, _path="")].  The loop over [data.items()] fills
    [result] one assignment at a time. *)
Fixpoint mask_secrets (data : json) (_path : string) {struct data} : json :=
  match data with
  | JDict d =>
      JDict
        (fold_left
           (fun result kv =>
              let '(k, v) := kv in
              match v with
              | JStr s =>
                  if bool_decide (k ∈ SECRET_FIELDS) && negb (String.eqb s "")
                  then dict_set k (JStr (mask_value s)) result
                  else dict_set k (mask_secrets v (_path +:+ "." +:+ k)) result
              | _ => dict_set k (mask_secrets v (_path +:+ "." +:+ k)) result
              end)
           d [])
  | JList l => JList (map (fun item => mask_secrets item _path) l)
  | _ => data
  end.

(** ** The merge engine (write path) *)

(** [v.endswith("***") or v == ""] *)
Definition placeholder (v : string) : bool :=
  endswith v "***" || String.eqb v "".

(** [merge_secrets(new_data, existing_data)] *)
Fixpoint merge_secrets (new_data existing_data : json) {struct new_data} : json :=
  match new_data, existing_data with
  | JDict d, JDict e =>
      JDict
        (fold_left
           (fun result kv =>
              let '(k, v) := kv in
              match v with
              | JStr s =>
                  if bool_decide (k ∈ SECRET_FIELDS) && placeholder s
                  then dict_set k (dict_get e k (JStr "")) result
                  else dict_set k (merge_secrets v (dict_get e k (JDict []))) result
              | _ => dict_set k (merge_secrets v (dict_get e k (JDict []))) result
              end)
           d [])
  | _, _ => new_data
  end.


(** ** The log buffer: [collections.deque(maxlen=500)] *)

Definition LOGS_MAXLEN : nat := 500.

(** [d.append(x)] on a deque bounded by [maxlen]: the item goes in at the
    right, and an item is dropped from the left when the bound is passed. *)
Definition deque_append {A : Type} (maxlen : nat) (x : A) (d : list A) : list A :=
  let d' := (d ++ [x])%list in
  if (maxlen <? length d')%nat then drop 1 d' else d'.

(** ** The supervisor's data *)

Inductive GatewayState : Set :=
| stopped | starting | running | stopping | error.

(** The strings stored in [self.state]. *)
Definition state_name (s : GatewayState) : string :=
  match s with
  | stopped => "stopped" | starting => "starting" | running => "running"
  | stopping => "stopping" | error => "error"
  end.

Definition GatewayState_eqb (a b : GatewayState) : bool :=
  match a, b with
  | stopped, stopped | starting, starting | running, running
  | stopping, stopping | error, error => true
  | _, _ => false
  end.

Inductive signal : Set := SIGTERM | SIGKILL.

(** An [asyncio.subprocess.Process] object.  Objects live in a table and
    are referred to by their index, so that a task which holds on to an
    old process and [self.process] can name different children. *)
Record Process : Type := mkProcess {
  pid : Z;
  returncode : option Z;          (* [None] while the child runs *)
  signals : list signal           (* what [terminate()] and [kill()] sent *)
}.

Record GatewayManager : Type := mkGatewayManager {
  process : option nat;
  state : GatewayState;
  logs : list string;
  start_time : option Q;
  restart_count : Z;
  _read_tasks : list nat
}.

(** [GatewayManager.__init__] *)
Definition GatewayManager_init : GatewayManager :=
  {| process := None; state := stopped; logs := []; start_time := None;
     restart_count := 0; _read_tasks := [] |}.

(** ** Coroutines

    An [async def] body is a tree of plain statements ([Do]), suspension
    points ([Await]) and [while] loops.  Timestamps are exact rationals. *)

Inductive Op : Type -> Type :=
| GetSelf : Op GatewayManager
| SetProcess (h : nat) : Op unit
| SetState (s : GatewayState) : Op unit
| SetStartTime (t : option Q) : Op unit
| LogsAppend (line : string) : Op unit
| IncrRestartCount : Op unit
| ReadTasksAppend (t : nat) : Op unit
| Returncode (h : nat) : Op (option Z)
| Terminate (h : nat) : Op unit
| Kill (h : nat) : Op unit
| TimeTime : Op Q
| CreateTask_read_output : Op nat.

Inductive Awaitable : Type -> Type :=
| CreateSubprocessExec (program : string) (args : list string)
    : Awaitable (string + nat)    (* the exception's text, or the new process *)
| WaitFor (h : nat) (timeout : Z)
    : Awaitable (option Z)        (* [None]: [asyncio.TimeoutError] *)
| Wait (h : nat) : Awaitable Z
| Readline (h : nat)
    : Awaitable (option string).  (* [None]: end of stream *)

Inductive coro (R : Type) : Type :=
| Ret (r : R)
| Throw (exn : string)
| Do {X : Type} (op : Op X) (k : X -> coro R)
| Await {X : Type} (a : Awaitable X) (k : X -> coro R)
| While (body : coro bool) (k : coro R).

Arguments Ret {R} r.
Arguments Throw {R} exn.
Arguments Do {R X} op k.
Arguments Await {R X} a k.
Arguments While {R} body k.

Fixpoint bind {R S : Type} (c : coro R) (f : R -> coro S) : coro S :=
  match c with
  | Ret r => f r
  | Throw e => Throw e
  | Do op k => Do op (fun x => bind (k x) f)
  | Await a k => Await a (fun x => bind (k x) f)
  | While body k => While body (bind k f)
  end.

Declare Scope coro_scope.
Delimit Scope coro_scope with coro.
Notation "x <- c ;; k" := (bind c (fun x => k))
  (at level 20, c at level 99, k at level 200, only parsing) : coro_scope.
Notation "c ;; k" := (bind c (fun _ => k))
  (at level 100, k at level 200, only parsing, right associativity) : coro_scope.
Local Open Scope coro_scope.

Definition perform {X : Type} (op : Op X) : coro X := Do op Ret.
Definition await {X : Type} (a : Awaitable X) : coro X := Await a Ret.

(** ** The supervisor's methods *)

(** [self.process and self.process.returncode is None] *)
Definition process_is_live : coro bool :=
  g <- perform GetSelf;;
  match process g with
  | None => Ret false
  | Some h => rc <- perform (Returncode h);; Ret (bool_decide (rc = None))
  end.

(** [self.process.<method>(...)]: the attribute is read at the call. *)
Definition on_process {R : Type} (f : nat -> coro R) : coro R :=
  g <- perform GetSelf;;
  match process g with
  | Some h => f h
  | None => Throw "AttributeError"
  end.

(** [_read_output].  [decode], [rstrip] and [ANSI_ESCAPE.sub] are library
    calls: [Readline] delivers the cleaned text of a non-empty line.  The
    loop body returns whether the loop goes on. *)
Definition _read_output : coro unit :=
  While
    (g <- perform GetSelf;;
     match process g with
     | None => Ret false
     | Some h =>
         line <- await (Readline h);;
         match line with
         | None => Ret false
         | Some cleaned => perform (LogsAppend cleaned);; Ret true
         end
     end)
    (g <- perform GetSelf;;
     match process g with
     | None => Ret tt
     | Some h =>
         rc <- perform (Returncode h);;
         match rc with
         | Some code =>
             if GatewayState_eqb (state g) running then
               perform (SetState error);;
               perform (LogsAppend ("Gateway exited with code "
                          +:+ pretty code))
             else Ret tt
         | None => Ret tt
         end
     end).

Definition start : coro unit :=
  live <- process_is_live;;
  if live then Ret tt
  else
    perform (SetState starting);;
    r <- await (CreateSubprocessExec "picoclaw" ["gateway"]);;
    match r with
    | inr h =>
        perform (SetProcess h);;
        perform (SetState running);;
        now <- perform TimeTime;;
        perform (SetStartTime (Some now));;
        task <- perform CreateTask_read_output;;
        perform (ReadTasksAppend task)
    | inl e =>
        perform (SetState error);;
        perform (LogsAppend ("Failed to start gateway: " +:+ e))
    end.

Definition stop : coro unit :=
  live <- process_is_live;;
  if negb live then perform (SetState stopped)
  else
    perform (SetState stopping);;
    on_process (fun h => perform (Terminate h));;
    r <- on_process (fun h => await (WaitFor h 10));;
    match r with
    | Some _ => Ret tt
    | None =>
        on_process (fun h => perform (Kill h));;
        on_process (fun h => await (Wait h));;
        Ret tt
    end;;
    perform (SetState stopped);;
    perform (SetStartTime None).

Definition restart : coro unit :=
  stop;;
  perform IncrRestartCount;;
  start.

(** ** The world a coroutine runs in *)

(** A task of the event loop. *)
Inductive task : Type :=
| Ready (c : coro unit)                                   (* to be run from [c] *)
| Suspended {X : Type} (a : Awaitable X) (k : X -> coro unit)
| Done
| Crashed (exn : string).

Record World : Type := mkWorld {
  self : GatewayManager;          (* the one [gateway] object *)
  procs : list Process;           (* every child spawned so far *)
  clock : Q;                      (* what [time.time()] returns *)
  tasks : list task
}.

Definition set_self (f : GatewayManager -> GatewayManager) (w : World) : World :=
  {| self := f (self w); procs := procs w; clock := clock w; tasks := tasks w |}.

Definition set_procs (f : list Process -> list Process) (w : World) : World :=
  {| self := self w; procs := f (procs w); clock := clock w; tasks := tasks w |}.

Definition set_tasks (f : list task -> list task) (w : World) : World :=
  {| self := self w; procs := procs w; clock := clock w; tasks := f (tasks w) |}.

Definition proc_returncode (w : World) (h : nat) : option Z :=
  match procs w !! h with Some p => returncode p | None => None end.

Definition send_signal (sig : signal) (p : Process) : Process :=
  {| pid := pid p; returncode := returncode p;
     signals := (signals p ++ [sig])%list |}.

Definition set_returncode (code : Z) (p : Process) : Process :=
  {| pid := pid p; returncode := Some code; signals := signals p |}.

(** The child behind handle [h] exits with [code], unless it has already. *)
Definition child_exit (h : nat) (code : Z) (w : World) : World :=
  match proc_returncode w h with
  | None => set_procs (alter (set_returncode code) h) w
  | Some _ => w
  end.

(** A statement that does not yield to the event loop. *)
Definition exec_op {X : Type} (op : Op X) (w : World) : World * X :=
  match op in Op X return World * X with
  | GetSelf => (w, self w)
  | SetProcess h =>
      (set_self (fun g =>
         {| process := Some h; state := state g; logs := logs g;
            start_time := start_time g; restart_count := restart_count g;
            _read_tasks := _read_tasks g |}) w, tt)
  | SetState s =>
      (set_self (fun g =>
         {| process := process g; state := s; logs := logs g;
            start_time := start_time g; restart_count := restart_count g;
            _read_tasks := _read_tasks g |}) w, tt)
  | SetStartTime t =>
      (set_self (fun g =>
         {| process := process g; state := state g; logs := logs g;
            start_time := t; restart_count := restart_count g;
            _read_tasks := _read_tasks g |}) w, tt)
  | LogsAppend line =>
      (set_self (fun g =>
         {| process := process g; state := state g;
            logs := deque_append LOGS_MAXLEN line (logs g);
            start_time := start_time g; restart_count := restart_count g;
            _read_tasks := _read_tasks g |}) w, tt)
  | IncrRestartCount =>
      (set_self (fun g =>
         {| process := process g; state := state g; logs := logs g;
            start_time := start_time g;
            restart_count := (restart_count g + 1)%Z;
            _read_tasks := _read_tasks g |}) w, tt)
  | ReadTasksAppend t =>
      (set_self (fun g =>
         {| process := process g; state := state g; logs := logs g;
            start_time := start_time g; restart_count := restart_count g;
            _read_tasks := (_read_tasks g ++ [t])%list |}) w, tt)
  | Returncode h => (w, proc_returncode w h)
  | Terminate h => (set_procs (alter (send_signal SIGTERM) h) w, tt)
  | Kill h => (set_procs (alter (send_signal SIGKILL) h) w, tt)
  | TimeTime => (w, clock w)
  | CreateTask_read_output =>
      (set_tasks (fun ts => (ts ++ [Ready _read_output])%list) w,
       length (tasks w))
  end.

(** What the outside answers when an awaited operation completes. *)
Record Env : Type := mkEnv {
  spawn_answer : string + Z;   (* [create_subprocess_exec] raises with this
                                  text, or returns a child with this pid *)
  exit_in_time : option Z;     (* the exit code, if the awaited child exits
                                  before the timeout *)
  exit_code : Z;               (* the exit code an unbounded [wait()] sees *)
  next_line : option string    (* the next output line, [None] at the end *)
}.

(** Completing an awaited operation. *)
Definition resolve {X : Type} (a : Awaitable X) (env : Env) (w : World)
  : World * X :=
  match a in Awaitable X return World * X with
  | CreateSubprocessExec _ _ =>
      match spawn_answer env with
      | inl msg => (w, inl msg)
      | inr p =>
          (set_procs (fun ps =>
             (ps ++ [{| pid := p; returncode := None; signals := [] |}])%list) w,
           inr (length (procs w)))
      end
  | WaitFor h _ =>
      match proc_returncode w h with
      | Some code => (w, Some code)
      | None =>
          match exit_in_time env with
          | Some code => (child_exit h code w, Some code)
          | None => (w, None)
          end
      end
  | Wait h =>
      match proc_returncode w h with
      | Some code => (w, code)
      | None => (child_exit h (exit_code env) w, exit_code env)
      end
  | Readline _ => (w, next_line env)
  end.

(** How far a coroutine got. *)
Inductive status (R : Type) : Type :=
| Finished (r : R)
| Raised (exn : string)
| Blocked {X : Type} (a : Awaitable X) (k : X -> coro R)
| Spinning (c : coro R).   (* a loop iteration that never awaited has ended *)

Arguments Finished {R} r.
Arguments Raised {R} exn.
Arguments Blocked {R X} a k.
Arguments Spinning {R} c.

(** Run a coroutine up to its next suspension point. *)
Fixpoint advance {R : Type} (c : coro R) (w : World) : World * status R :=
  match c with
  | Ret r => (w, Finished r)
  | Throw e => (w, Raised e)
  | Do op k => let '(w', x) := exec_op op w in advance (k x) w'
  | Await a k => (w, Blocked a k)
  | While body k =>
      match advance body w with
      | (w', Finished true) => (w', Spinning (While body k))
      | (w', Finished false) => advance k w'
      | (w', Raised e) => (w', Raised e)
      | (w', Blocked a kb) =>
          (w', Blocked a (fun x => b <- kb x;; if b : bool then While body k else k))
      | (w', Spinning c') =>
          (w', Spinning (b <- c';; if b : bool then While body k else k))
      end
  end.

(** Run a coroutine with nothing else interleaved: every awaited operation
    completes at once, as [env] says. *)
Fixpoint run {R : Type} (c : coro R) (env : Env) (w : World) : World * status R :=
  match c with
  | Ret r => (w, Finished r)
  | Throw e => (w, Raised e)
  | Do op k => let '(w', x) := exec_op op w in run (k x) env w'
  | Await a k => let '(w', x) := resolve a env w in run (k x) env w'
  | While body k =>
      match run body env w with
      | (w', Finished true) => (w', Spinning (While body k))
      | (w', Finished false) => run k env w'
      | (w', Raised e) => (w', Raised e)
      | (w', Blocked a kb) =>
          (w', Blocked a (fun x => b <- kb x;; if b : bool then While body k else k))
      | (w', Spinning c') =>
          (w', Spinning (b <- c';; if b : bool then While body k else k))
      end
  end.

(** ** The event loop *)

Inductive lifecycle : Set := OpStart | OpStop | OpRestart.

Definition method (op : lifecycle) : coro unit :=
  match op with OpStart => start | OpStop => stop | OpRestart => restart end.

Inductive event : Type :=
| Request (op : lifecycle)        (* [asyncio.create_task(gateway.<op>())] *)
| Resume (i : nat) (env : Env)    (* task [i] runs to its next [await] *)
| ChildExit (h : nat) (code : Z)  (* a child exits on its own *)
| Tick (t : Q).                   (* time passes *)

Definition task_of_status (s : status unit) : task :=
  match s with
  | Finished _ => Done
  | Raised e => Crashed e
  | Blocked a k => Suspended a k
  | Spinning c => Ready c
  end.

Definition resume (i : nat) (env : Env) (w : World) : World :=
  match tasks w !! i with
  | Some (Ready c) =>
      let '(w', s) := advance c w in
      set_tasks (fun ts => <[i := task_of_status s]> ts) w'
  | Some (Suspended a k) =>
      let '(w1, x) := resolve a env w in
      let '(w', s) := advance (k x) w1 in
      set_tasks (fun ts => <[i := task_of_status s]> ts) w'
  | _ => w
  end.

Definition step (w : World) (ev : event) : World :=
  match ev with
  | Request op => set_tasks (fun ts => (ts ++ [Ready (method op)])%list) w
  | Resume i env => resume i env w
  | ChildExit h code => child_exit h code w
  | Tick t =>
      {| self := self w; procs := procs w; clock := t; tasks := tasks w |}
  end.

Definition exec (evs : list event) (w : World) : World := fold_left step evs w.

(** The control program at start-up: [gateway = GatewayManager()]. *)
Definition World_init : World :=
  {| self := GatewayManager_init; procs := []; clock := 0; tasks := [] |}.

(** ** Snapshots *)

Record Status : Type := mkStatus {
  status_state : string;
  status_pid : option Z;
  status_uptime : option Z;
  status_restart_count : Z
}.

(** [int(x)] on a timestamp difference: truncation towards zero. *)
Definition int_of_Q (x : Q) : Z := Z.quot (Qnum x) (Z.pos (Qden x)).

(** [get_status] *)
Definition get_status (w : World) : Status :=
  let g := self w in
  let pid :=
    match process g with
    | Some h =>
        match procs w !! h with
        | Some p => match returncode p with None => Some (pid p) | Some _ => None end
        | None => None
        end
    | None => None
    end in
  let uptime :=
    match start_time g with
    | Some t =>
        if negb (Qeq_bool t 0) && GatewayState_eqb (state g) running
        then Some (int_of_Q (clock w - t))
        else None
    | None => None
    end in
  {| status_state := state_name (state g); status_pid := pid;
     status_uptime := uptime; status_restart_count := restart_count g |}.

(** [api_logs]: [list(gateway.logs)] *)
Definition api_logs (w : World) : list string := logs (self w).

(** The children that are running. *)
Definition live_children (w : World) : list Process :=
  filter (fun p => returncode p = None) (procs w).

(** The guard of [start] and [stop]: [self.process] is set and its child
    has not exited. *)
Definition has_live_process (w : World) : bool :=
  match process (self w) with
  | Some h => bool_decide (proc_returncode w h = None)
  | None => false
  end.

(** [self.logs.append(line)] for each line in turn. *)
Definition log_lines (lines : list string) (w : World) : World :=
  fold_left (fun w line => fst (exec_op (LogsAppend line) w)) lines w.

(** Two answers of the outside: a spawn that succeeds with pid [p], and a
    child that ignores the termination request. *)
Definition spawns (p : Z) : Env :=
  {| spawn_answer := inr p; exit_in_time := None; exit_code := (-9)%Z;
     next_line := None |}.

Definition times_out : Env :=
  {| spawn_answer := inl ""; exit_in_time := None; exit_code := (-9)%Z;
     next_line := None |}.

(** ** Notions used to state the properties *)

(** The test of [merge_secrets]'s [if]: a secret key holding a string that
    looks like a masked placeholder. *)
Definition secret_placeholder (k : string) (v : json) : bool :=
  bool_decide (k ∈ SECRET_FIELDS)
  && match v with JStr s => placeholder s | _ => false end.

(** What one pass of each loop stores under key [k]. *)
Definition mask_entry (_path : string) (k : string) (v : json) : json :=
  match v with
  | JStr s =>
      if bool_decide (k ∈ SECRET_FIELDS) && negb (String.eqb s "")
      then JStr (mask_value s) else v
  | _ => mask_secrets v (_path +:+ "." +:+ k)
  end.

Definition merge_entry (e : list (string * json)) (k : string) (v : json) : json :=
  if secret_placeholder k v then dict_get e k (JStr "")
  else merge_secrets v (dict_get e k (JDict [])).

(** The mask engine in the words of the specification: a secret leaf that
    is a non-empty string becomes its MaskedValue, every other node keeps
    its place. *)
Definition MaskedValue (v : string) : string :=
  if (String.length v <=? 8)%nat then "***"
  else String.substring 0 8 v +:+ "***".

Fixpoint mask_document (document : json) : json :=
  match document with
  | JDict d =>
      JDict
        (map (fun kv =>
                (fst kv,
                 match snd kv with
                 | JStr s =>
                     if bool_decide (fst kv ∈ SECRET_FIELDS)
                        && negb (bool_decide (s = ""))
                     then JStr (MaskedValue s) else JStr s
                 | _ => mask_document (snd kv)
                 end)) d)
  | JList l => JList (map mask_document l)
  | _ => document
  end.

(** Every secret leaf, wherever it sits, is a string that is empty or ends
    with the mask marker. *)
Fixpoint secret_leaves_masked (j : json) : bool :=
  match j with
  | JDict d =>
      forallb (fun kv =>
                 (if bool_decide (fst kv ∈ SECRET_FIELDS)
                  then match snd kv with JStr s => placeholder s | _ => false end
                  else true)
                 && secret_leaves_masked (snd kv)) d
  | JList l => forallb secret_leaves_masked l
  | _ => true
  end.

(** Along the path [p] the document [E] holds dicts only: [E] is a dict
    and so is every value found on the way down the keys of [p], as far as
    they are present.  A missing key ends the walk: [existing.get(k, {})]
    then hands an empty dict to the rest of the merge. *)
Fixpoint dicts_along (p : list string) (E : json) {struct p} : bool :=
  match E with
  | JDict e =>
      match p with
      | [] => true
      | k :: q =>
          match dict_lookup k e with
          | Some x => dicts_along q x
          | None => true
          end
      end
  | _ => false
  end.

(** No dict anywhere inside. *)
Fixpoint dict_free (j : json) : bool :=
  match j with
  | JDict _ => false
  | JList l => forallb dict_free l
  | _ => true
  end.

(** No list holds a dict, at any depth. *)
Fixpoint lists_dict_free (j : json) : bool :=
  match j with
  | JDict d => forallb (fun kv => lists_dict_free (snd kv)) d
  | JList l => forallb dict_free l
  | _ => true
  end.

(** No secret placeholder among the entries reached through dicts. *)
Fixpoint no_secret_placeholder (j : json) : bool :=
  match j with
  | JDict d =>
      forallb (fun kv =>
                 negb (secret_placeholder (fst kv) (snd kv))
                 && no_secret_placeholder (snd kv)) d
  | _ => true
  end.

(** ** Sample documents *)

(** A stored document with two real secrets, an unset one and a list. *)
Definition stored_example : json :=
  JDict [
    ("providers", JDict [
      ("anthropic", JDict [("api_key", JStr "sk-real-value-123456")]);
      ("openai", JDict [("api_key", JStr "short"); ("api_base", JStr "")]) ]);
    ("channels", JDict [
      ("telegram", JDict [("enabled", JBool true); ("token", JStr "");
                          ("allow_from", JList [JStr "alice"; JStr "bob"])]) ]);
    ("gateway", JDict [("host", JStr "0.0.0.0"); ("port", JInt 18790)])
  ].

(** A stored document in which one provider is not a dict. *)
Definition stored_flat_provider : json :=
  JDict [("providers", JDict [("anthropic", JStr "disabled")])].

(** An incoming document that echoes a masked key for that provider. *)
Definition submitted_placeholder : json :=
  JDict [("providers", JDict [("anthropic", JDict [("api_key", JStr "***")])])].

(** A stored document whose secret sits in a dict inside a list. *)
Definition stored_model_list : json :=
  JDict [("model_list",
          JList [JDict [("model_name", JStr "glm-4.7");
                        ("api_key", JStr "sk-real-value-123456")]])].

(** The write of the scenario: a real key for one provider. *)
Definition submitted_key : json :=
  JDict [("providers",
          JDict [("anthropic", JDict [("api_key", JStr "sk-real-value-123456")])])].

(** ** Truth values and [dict.pop] *)

(** [bool(x)] *)
Definition truthy (j : json) : bool :=
  match j with
  | JNull => false
  | JBool b => b
  | JInt n => negb (n =? 0)%Z
  | JFloat x => match x with S754_zero _ => false | _ => true end
  | JStr s => negb (String.eqb s "")
  | JList l => match l with [] => false | _ => true end
  | JDict d => match d with [] => false | _ => true end
  end.

(** [del d[k]] for a key that may be absent *)
Fixpoint dict_remove (k : string) (d : list (string * json))
  : list (string * json) :=
  match d with
  | [] => []
  | (k', x) :: d' =>
      if String.eqb k' k then d' else (k', x) :: dict_remove k d'
  end.

(** [d.pop(k, dflt)]: the value, and the dict afterwards *)
Definition dict_pop (d : list (string * json)) (k : string) (dflt : json)
  : json * list (string * json) :=
  (dict_get d k dflt, dict_remove k d).

Definition as_dict (j : json) : option (list (string * json)) :=
  match j with JDict d => Some d | _ => None end.

(** ** The configuration store

    The file at [CONFIG_PATH] is absent, or holds a text that [json.loads]
    rejects, or holds the text of a document; what [save_config] writes
    reads back as the document written. *)

Inductive ConfigFile : Type :=
| NoFile
| Unparsable
| Stored (data : json).

Definition load_config (f : ConfigFile) : json :=
  match f with
  | NoFile => default_config
  | Unparsable => default_config
  | Stored data => data
  end.

Definition save_config (data : json) : ConfigFile := Stored data.

(** ** The control surface *)

(** The control program: the configuration file, the [cron] directory
    (absent, or its [*.json] files, each parsed or not), and the event
    loop with the supervisor. *)
Record System : Type := mkSystem {
  config_file : ConfigFile;
  cron_dir : option (list (option json));
  loop : World
}.

Definition set_config_file (f : ConfigFile) (sys : System) : System :=
  {| config_file := f; cron_dir := cron_dir sys; loop := loop sys |}.

(** [asyncio.create_task(gateway.<op>())] *)
Definition create_task (op : lifecycle) (sys : System) : System :=
  {| config_file := config_file sys; cron_dir := cron_dir sys;
     loop := step (loop sys) (Request op) |}.

Inductive Response : Type :=
| JSONResponse (content : json) (status_code : nat)
| PlainTextResponse (content : string) (status_code : nat)
    (headers : list (string * string))
| TemplateResponse (name : string).

(** What a handler does: it returns a response, or an exception leaves it. *)
Inductive outcome : Type :=
| Returns (r : Response)
| Raises (exn : string).

Definition double_quote : string :=
  String (Ascii.Ascii false true false false false true false false) "".

(** [require_auth]; the argument is [request.user.is_authenticated]. *)
Definition require_auth (is_authenticated : bool) : option Response :=
  if negb is_authenticated then
    Some (PlainTextResponse "Unauthorized" 401
            [("WWW-Authenticate",
              "Basic realm=" +:+ double_quote +:+ "picoclaw" +:+ double_quote)])
  else None.

Definition homepage (is_authenticated : bool) : Response :=
  match require_auth is_authenticated with
  | Some auth_err => auth_err
  | None => TemplateResponse "index.html"
  end.

Definition health (sys : System) : Response :=
  JSONResponse
    (JDict [("status", JStr "ok");
            ("gateway", JStr (state_name (state (self (loop sys)))))]) 200.

Definition api_config_get (is_authenticated : bool) (sys : System) : Response :=
  match require_auth is_authenticated with
  | Some auth_err => auth_err
  | None =>
      let config := load_config (config_file sys) in
      JSONResponse (mask_secrets config "") 200
  end.

(** The text of the exception that [body.pop("_restartGateway", False)]
    raises on a body that is not a dict. *)
Definition pop_error (body : json) : string :=
  match body with
  | JList _ => "pop expected at most 1 argument, got 2"
  | JNull => "'NoneType' object has no attribute 'pop'"
  | JBool _ => "'bool' object has no attribute 'pop'"
  | JInt _ => "'int' object has no attribute 'pop'"
  | JFloat _ => "'float' object has no attribute 'pop'"
  | JStr _ => "'str' object has no attribute 'pop'"
  | JDict _ => ""
  end.

(** [api_config_put]; [request_json] is what [await request.json()] gives,
    [None] when it raises.  Nothing is awaited between taking [config_lock]
    and releasing it, so the handler runs from there to its end without
    yielding. *)
Definition api_config_put (is_authenticated : bool) (request_json : option json)
    (sys : System) : System * Response :=
  match require_auth is_authenticated with
  | Some auth_err => (sys, auth_err)
  | None =>
      match request_json with
      | None => (sys, JSONResponse (JDict [("error", JStr "Invalid JSON")]) 400)
      | Some (JDict d) =>
          let '(restart, d') := dict_pop d "_restartGateway" (JBool false) in
          let existing := load_config (config_file sys) in
          let merged := merge_secrets (JDict d') existing in
          let sys1 := set_config_file (save_config merged) sys in
          let sys2 := if truthy restart then create_task OpRestart sys1 else sys1 in
          (sys2, JSONResponse (JDict [("ok", JBool true); ("restarting", restart)]) 200)
      | Some body =>
          (sys, JSONResponse (JDict [("error", JStr (pop_error body))]) 500)
      end
  end.

(** The dict that [get_status] returns. *)
Definition status_json (st : Status) : json :=
  let opt (o : option Z) := match o with Some n => JInt n | None => JNull end in
  JDict [("state", JStr (status_state st));
         ("pid", opt (status_pid st));
         ("uptime", opt (status_uptime st));
         ("restart_count", JInt (status_restart_count st))].

(** The two loops of [api_status]; [None] when [.get] is called on a value
    that is not a dict. *)
Definition providers_summary (providers : list (string * json))
  : option (list (string * json)) :=
  fold_left
    (fun result kv =>
       match result, as_dict (snd kv) with
       | Some result, Some prov =>
           Some (dict_set (fst kv)
                   (JDict [("configured",
                            JBool (truthy (dict_get prov "api_key" JNull)))])
                   result)
       | _, _ => None
       end)
    providers (Some []).

Definition channels_summary (channels : list (string * json))
  : option (list (string * json)) :=
  fold_left
    (fun result kv =>
       match result, as_dict (snd kv) with
       | Some result, Some chan =>
           Some (dict_set (fst kv)
                   (JDict [("enabled", dict_get chan "enabled" (JBool false))])
                   result)
       | _, _ => None
       end)
    channels (Some []).

(** The files of the [cron] directory that parse. *)
Definition cron_jobs (dir : option (list (option json))) : list json :=
  match dir with
  | Some files => omap id files
  | None => []
  end.

Definition api_status (is_authenticated : bool) (sys : System) : outcome :=
  match require_auth is_authenticated with
  | Some auth_err => Returns auth_err
  | None =>
      let config := load_config (config_file sys) in
      match as_dict config with
      | None => Raises "AttributeError"
      | Some config =>
          match as_dict (dict_get config "providers" (JDict [])) with
          | None => Raises "AttributeError"
          | Some provs =>
              match providers_summary provs with
              | None => Raises "AttributeError"
              | Some providers =>
                  match as_dict (dict_get config "channels" (JDict [])) with
                  | None => Raises "AttributeError"
                  | Some chans =>
                      match channels_summary chans with
                      | None => Raises "AttributeError"
                      | Some channels =>
                          let jobs := cron_jobs (cron_dir sys) in
                          Returns
                            (JSONResponse
                               (JDict [
                                  ("gateway", status_json (get_status (loop sys)));
                                  ("providers", JDict providers);
                                  ("channels", JDict channels);
                                  ("cron",
                                   JDict [("count", JInt (Z.of_nat (length jobs)));
                                          ("jobs", JList jobs)])])
                               200)
                      end
                  end
              end
          end
      end
  end.

(** The handler of [/api/logs]. *)
Definition api_logs_handler (is_authenticated : bool) (sys : System) : Response :=
  match require_auth is_authenticated with
  | Some auth_err => auth_err
  | None => JSONResponse (JDict [("lines", JList (map JStr (api_logs (loop sys))))]) 200
  end.

(** [api_gateway_start], [api_gateway_stop], [api_gateway_restart] *)
Definition api_gateway (op : lifecycle) (is_authenticated : bool) (sys : System)
  : System * Response :=
  match require_auth is_authenticated with
  | Some auth_err => (sys, auth_err)
  | None => (create_task op sys, JSONResponse (JDict [("ok", JBool true)]) 200)
  end.

(** [auto_start_gateway]; [None] when an [AttributeError] leaves it. *)
Definition auto_start_gateway (sys : System) : option System :=
  match as_dict (load_config (config_file sys)) with
  | None => None
  | Some config =>
      match as_dict (dict_get config "providers" (JDict [])) with
      | None => None
      | Some provs =>
          let has_key :=
            existsb (fun kv =>
                       match snd kv with
                       | JDict prov => truthy (dict_get prov "api_key" JNull)
                       | _ => false
                       end) provs in
          Some (if has_key then create_task OpStart sys else sys)
      end
  end.

(** Every string stored directly under a secret key is empty, or is at
    most 8 characters followed by the mask marker. *)
Fixpoint secrets_hidden (j : json) : bool :=
  match j with
  | JDict d =>
      forallb (fun kv =>
                 (if bool_decide (fst kv ∈ SECRET_FIELDS)
                  then match snd kv with
                       | JStr s =>
                           String.eqb s ""
                           || (endswith s "***" && (String.length s <=? 11)%nat)
                       | _ => true
                       end
                  else true)
                 && secrets_hidden (snd kv)) d
  | JList l => forallb secrets_hidden l
  | _ => true
  end.

(** The control program at start-up, before any configuration is written,
    and with a given document in the configuration file. *)
Definition System_init : System :=
  {| config_file := NoFile; cron_dir := None; loop := World_init |}.

Definition System_with (data : json) : System :=
  {| config_file := Stored data; cron_dir := None; loop := World_init |}.

(** What [api_status] reports for one provider that is a dict. *)
Definition provider_configured (prov : json) : bool :=
  match prov with
  | JDict p => truthy (dict_get p "api_key" JNull)
  | _ => false
  end.

(** A stored document with one configured provider and one that is not, and
    one whose provider entry is not an object. *)
Definition stored_two_providers : json :=
  JDict [("providers",
          JDict [("anthropic", JDict [("api_key", JStr "sk-real-value-123456")]);
                 ("openai", JDict [("api_key", JStr ""); ("api_base", JStr "")])])].

Definition stored_null_provider : json :=
  JDict [("providers", JDict [("anthropic", JNull)])].

(** ** Authentication *)

(** [c.isspace()], for the characters a header can hold *)
Definition isspace (c : Ascii.ascii) : bool :=
  let n := Ascii.nat_of_ascii c in
  ((9 <=? n) && (n <=? 13) || (28 <=? n) && (n <=? 32)
   || (n =? 133) || (n =? 160))%nat.

(** [s.split()]: the maximal runs of characters that are not whitespace *)
Fixpoint split_from (s word : string) : list string :=
  match s with
  | EmptyString => if String.eqb word "" then [] else [word]
  | String c s' =>
      if isspace c then
        if String.eqb word "" then split_from s' "" else word :: split_from s' ""
      else split_from s' (word +:+ String c "")
  end.

Definition split (s : string) : list string := split_from s "".

(** [c.lower()] *)
Definition lower_char (c : Ascii.ascii) : Ascii.ascii :=
  let n := Ascii.nat_of_ascii c in
  if ((65 <=? n) && (n <=? 90)
      || (192 <=? n) && (n <=? 222) && negb (n =? 215))%nat
  then Ascii.ascii_of_nat (n + 32) else c.

Fixpoint lower (s : string) : string :=
  match s with
  | EmptyString => EmptyString
  | String c s' => String (lower_char c) (lower s')
  end.

(** The character [:]. *)
Definition colon : Ascii.ascii :=
  Ascii.Ascii false true false true true true false false.

(** [s.partition(":")] *)
Fixpoint partition (s : string) : string * string * string :=
  match s with
  | EmptyString => ("", "", "")
  | String c s' =>
      if Ascii.eqb c colon then ("", ":", s')
      else let '(head, sep, tail) := partition s' in (String c head, sep, tail)
  end.

Inductive AuthResult : Type :=
| Anonymous                                        (* [return None] *)
| Authenticated (scopes : list string) (user : string)
| AuthenticationError (message : string).

(** [BasicAuthBackend.authenticate].  [ADMIN_USERNAME] and [ADMIN_PASSWORD]
    come from the environment; [b64decode_ascii] stands for
    [base64.b64decode(credentials).decode("ascii")], [None] when it raises
    [ValueError] or [UnicodeDecodeError]; [authorization] is the header of
    that name, when there is one. *)
Definition authenticate (ADMIN_USERNAME ADMIN_PASSWORD : string)
    (b64decode_ascii : string -> option string)
    (authorization : option string) : AuthResult :=
  match authorization with
  | None => Anonymous
  | Some auth =>
      match split auth with
      | [scheme; credentials] =>
          if negb (String.eqb (lower scheme) "basic") then Anonymous
          else
            match b64decode_ascii credentials with
            | None => AuthenticationError "Invalid credentials"
            | Some decoded =>
                let '(username, _, password) := partition decoded in
                if String.eqb username ADMIN_USERNAME
                   && String.eqb password ADMIN_PASSWORD
                then Authenticated ["authenticated"] username
                else AuthenticationError "Invalid credentials"
            end
      | _ => AuthenticationError "Invalid credentials"
      end
  end.

(** Whether a string holds a colon. *)
Fixpoint has_colon (s : string) : bool :=
  match s with
  | EmptyString => false
  | String c s' => Ascii.eqb c colon || has_colon s'
  end.

(** A decoder that knows one encoded text, for examples. *)
Definition decode_only (encoded decoded : string) (s : string) : option string :=
  if String.eqb s encoded then Some decoded else None.

(** ** Calls that do not overlap *)

(** [self.process], when set, names a child of the table. *)
Definition valid_handle (w : World) : bool :=
  match process (self w) with
  | Some h => (h <? length (procs w))%nat
  | None => true
  end.

(** A call of a lifecycle method that runs to its end before anything else
    happens, or the exit of a child between two calls. *)
Inductive call : Type :=
| Call (op : lifecycle) (env : Env)
| Exits (h : nat) (code : Z).

Definition run_call (w : World) (c : call) : World :=
  match c with
  | Call op env => fst (run (method op) env w)
  | Exits h code => child_exit h code w
  end.

Definition run_calls (calls : list call) (w : World) : World :=
  fold_left run_call calls w.

(** What [stop()] sends to a live child, and the exit code it sees. *)
Definition stop_signals (env : Env) : list signal :=
  match exit_in_time env with
  | Some _ => [SIGTERM]
  | None => [SIGTERM; SIGKILL]
  end.

Definition stop_exit_code (env : Env) : Z :=
  match exit_in_time env with
  | Some code => code
  | None => exit_code env
  end.

(** The child as [stop()] leaves it. *)
Definition stopped_child (env : Env) (p : Process) : Process :=
  {| pid := pid p; returncode := Some (stop_exit_code env);
     signals := (signals p ++ stop_signals env)%list |}.

(** The only child that can be running is the one [self.process] names. *)
Definition only_recorded_child_lives (w : World) : Prop :=
  forall h p, procs w !! h = Some p -> returncode p = None ->
              process (self w) = Some h.

(** ** The output reader under the event loop *)

(** Two more answers of the outside: the next output line, and the end of
    the output. *)
Definition outputs (cleaned : string) : Env :=
  {| spawn_answer := inl ""; exit_in_time := None; exit_code := 0;
     next_line := Some cleaned |}.

Definition end_of_output : Env :=
  {| spawn_answer := inl ""; exit_in_time := None; exit_code := 0;
     next_line := None |}.

(** The task of [_read_output] while it awaits a line of process [h]: what
    running [_read_output] up to its [readline()] leaves in the task
    table. *)
Definition reader_waiting (h : nat) : task :=
  task_of_status
    (snd (advance _read_output
            {| self := {| process := Some h; state := stopped; logs := [];
                          start_time := None; restart_count := 0;
                          _read_tasks := [] |};
               procs := []; clock := 0; tasks := [] |})).

(** The line that [_read_output] logs when the child has exited. *)
Definition exit_line (code : Z) : string :=
  "Gateway exited with code " +:+ pretty code.

(** The schedule of a reader that reads [lines], after which its child
    exits with [code] and the output ends. *)
Definition reader_schedule (i h : nat) (lines : list string) (code : Z)
  : list event :=
  (Resume i end_of_output
   :: map (fun line => Resume i (outputs line)) lines
   ++ [ChildExit h code; Resume i end_of_output])%list.

(** ** Coroutines that never raise *)

(** [self.process] has been assigned. *)
Definition process_set (w : World) : bool :=
  match process (self w) with Some _ => true | None => false end.

(** [never_raises b c]: the coroutine [c] reaches no [Throw], whatever the
    outside answers and whatever else runs while it is suspended, when it
    starts in a world where [self.process] is set if [b] says so. *)
Inductive never_raises {R : Type} : bool -> coro R -> Prop :=
| never_raises_ret (b : bool) (r : R) : never_raises b (Ret r)
| never_raises_do (b : bool) (X : Type) (op : Op X) (k : X -> coro R) :
    (forall w, (b = true -> process_set w = true) ->
       never_raises (process_set (fst (exec_op op w))) (k (snd (exec_op op w)))) ->
    never_raises b (Do op k)
| never_raises_await (b : bool) (X : Type) (a : Awaitable X) (k : X -> coro R) :
    (forall x, never_raises b (k x)) ->
    never_raises b (Await a k)
| never_raises_while (b : bool) (body : coro bool) (k : coro R) :
    @never_raises bool b body -> never_raises b k ->
    never_raises b (While body k).

(** Every task of the table is one that never raises. *)
Definition task_never_raises (w : World) (t : task) : Prop :=
  match t with
  | Ready c => never_raises (process_set w) c
  | Suspended a k => forall x, never_raises (process_set w) (k x)
  | Done => True
  | Crashed _ => False
  end.

(** What [advance] leaves of a coroutine that never raises. *)
Definition status_never_raises {R : Type} (w : World) (s : status R) : Prop :=
  match s with
  | Finished _ => True
  | Raised _ => False
  | Blocked a k => forall x, never_raises (process_set w) (k x)
  | Spinning c => never_raises (process_set w) c
  end.

(* ===================================================================== *)
(** * Part II: properties *)
(* ===================================================================== *)

(** ** Strings *)

Lemma string_length_app (a b : string) :
  String.length (a +:+ b) = (String.length a + String.length b)%nat.
Proof. induction a as [|c a IH]; simpl; [done | by rewrite IH]. Qed.

Lemma substring_all (b : string) :
  String.substring 0 (String.length b) b = b.
Proof. induction b as [|c b IH]; simpl; [done | by rewrite IH]. Qed.

Lemma substring_app_r (a b : string) :
  String.substring (String.length a) (String.length b) (a +:+ b) = b.
Proof. induction a as [|c a IH]; simpl; [apply substring_all | done]. Qed.

Lemma substring_length_le (n : nat) (s : string) :
  (n <= String.length s)%nat -> String.length (String.substring 0 n s) = n.
Proof.
  revert s; induction n as [|n IH]; intros [|c s]; simpl; intros H; try done.
  - lia.
  - rewrite IH; [done | lia].
Qed.

Lemma substring_app_l (n : nat) (a b : string) :
  (n <= String.length a)%nat ->
  String.substring 0 n (a +:+ b) = String.substring 0 n a.
Proof.
  revert a; induction n as [|n IH]; intros [|c a]; simpl; intros H; try done.
  - by destruct b.
  - lia.
  - rewrite IH; [done | lia].
Qed.

Lemma substring_idem (n : nat) (s : string) :
  String.substring 0 n (String.substring 0 n s) = String.substring 0 n s.
Proof.
  revert s; induction n as [|n IH]; intros [|c s]; simpl; try done.
  by rewrite IH.
Qed.

Lemma endswith_app (a b : string) : endswith (a +:+ b) b = true.
Proof.
  unfold endswith. rewrite string_length_app.
  replace (String.length a + String.length b - String.length b)%nat
    with (String.length a) by lia.
  rewrite substring_app_r, String.eqb_refl, andb_true_r.
  apply Nat.leb_le; lia.
Qed.

Lemma string_eqb_eq (a b : string) : String.eqb a b = bool_decide (a = b).
Proof.
  destruct (String.eqb_spec a b) as [->|Hne].
  - by rewrite bool_decide_eq_true_2.
  - by rewrite bool_decide_eq_false_2.
Qed.

(** The mask rule of the code is the MaskedValue rule of the data model. *)
Lemma mask_value_MaskedValue (v : string) : mask_value v = MaskedValue v.
Proof.
  unfold mask_value, MaskedValue.
  destruct (Nat.ltb_spec 8 (String.length v)), (Nat.leb_spec (String.length v) 8);
    try done; lia.
Qed.

Lemma mask_value_placeholder (v : string) : placeholder (mask_value v) = true.
Proof.
  unfold placeholder, mask_value.
  destruct (8 <? String.length v)%nat; [|done].
  by rewrite endswith_app.
Qed.

Lemma mask_value_nonempty (v : string) : String.eqb (mask_value v) "" = false.
Proof.
  unfold mask_value. destruct (8 <? String.length v)%nat; [|done].
  destruct (String.substring 0 8 v); done.
Qed.

Lemma mask_value_idem (v : string) : mask_value (mask_value v) = mask_value v.
Proof.
  unfold mask_value.
  destruct (Nat.ltb_spec 8 (String.length v)) as [Hlt|Hle]; [|done].
  rewrite string_length_app, substring_length_le by lia.
  simpl. rewrite substring_app_l by (rewrite substring_length_le; lia).
  by rewrite substring_idem.
Qed.

(** ** Dicts *)

Lemma dict_lookup_None (k : string) (d : list (string * json)) :
  dict_lookup k d = None <-> k ∉ keys d.
Proof.
  induction d as [|[k' x] d IH]; simpl.
  - split; [intros _; apply not_elem_of_nil | done].
  - rewrite not_elem_of_cons. destruct (String.eqb_spec k' k) as [->|Hne].
    + split; [done | by intros [? _]].
    + rewrite IH. split; [by intros ?; split | by intros [_ ?]].
Qed.

Lemma dict_lookup_elem_of (k : string) (d : list (string * json)) (v : json) :
  dict_lookup k d = Some v -> (k, v) ∈ d.
Proof.
  induction d as [|[k' x] d IH]; simpl; [done|].
  destruct (String.eqb_spec k' k) as [->|Hne].
  - intros [= ->]. apply elem_of_cons; by left.
  - intros H. apply elem_of_cons; right; auto.
Qed.

Lemma dict_lookup_map (f : string -> json -> json) (k : string)
    (d : list (string * json)) :
  dict_lookup k (map (fun kv => (fst kv, f (fst kv) (snd kv))) d)
  = f k <$> dict_lookup k d.
Proof.
  induction d as [|[k' x] d IH]; simpl; [done|].
  destruct (String.eqb_spec k' k) as [->|Hne]; [done | apply IH].
Qed.

Lemma keys_map (f : string -> json -> json) (d : list (string * json)) :
  keys (map (fun kv => (fst kv, f (fst kv) (snd kv))) d) = keys d.
Proof. unfold keys. rewrite map_map. by apply map_ext. Qed.

Lemma dict_set_fresh (k : string) (x : json) (d : list (string * json)) :
  k ∉ keys d -> dict_set k x d = (d ++ [(k, x)])%list.
Proof.
  induction d as [|[k' x'] d IH]; simpl; [done|].
  rewrite not_elem_of_cons. intros [Hne Hnotin].
  destruct (String.eqb_spec k' k) as [->|_]; [done|].
  by rewrite IH.
Qed.

(** A loop [for k, v in d.items(): result[k] = g(k, v)] over a dict, whose
    keys are distinct, appends one item per key in order. *)
Lemma fold_dict_set (g : string -> json -> json)
    (body : list (string * json) -> string * json -> list (string * json)) :
  (forall result k v, body result (k, v) = dict_set k (g k v) result) ->
  forall d acc, NoDup (keys acc ++ keys d) ->
    fold_left body d acc
    = (acc ++ map (fun kv => (fst kv, g (fst kv) (snd kv))) d)%list.
Proof.
  intros Hbody d. induction d as [|[k v] d IH]; intros acc Hnd; simpl.
  - by rewrite app_nil_r.
  - rewrite Hbody, dict_set_fresh.
    + rewrite IH.
      * by rewrite <- app_assoc.
      * unfold keys in *. rewrite map_app, <- app_assoc. exact Hnd.
    + apply NoDup_app in Hnd as (_ & Hdisj & _).
      intros Hin. apply (Hdisj k Hin). simpl. apply elem_of_cons; by left.
Qed.

Lemma unique_keys_dict (d : list (string * json)) :
  unique_keys (JDict d) = true <->
  NoDup (keys d) /\ Forall (fun kv => unique_keys (snd kv) = true) d.
Proof.
  simpl. rewrite andb_true_iff, bool_decide_eq_true, forallb_forall, Forall_forall.
  unfold keys. split; intros [H1 H2]; split; try done.
  - intros kv Hin. apply H2. by apply list_elem_of_In.
  - intros kv Hin. apply H2. by apply list_elem_of_In.
Qed.

Lemma unique_keys_list (l : list json) :
  unique_keys (JList l) = true <-> Forall (fun x => unique_keys x = true) l.
Proof.
  simpl. rewrite forallb_forall, Forall_forall.
  split; intros H x Hin; apply H; by apply list_elem_of_In.
Qed.

Lemma mask_entry_str (_path k s : string) :
  mask_entry _path k (JStr s)
  = if bool_decide (k ∈ SECRET_FIELDS) && negb (String.eqb s "")
    then JStr (mask_value s) else JStr s.
Proof. done. Qed.

(** One level of [mask_secrets] on a dict. *)
Lemma mask_secrets_dict (_path : string) (d : list (string * json)) :
  NoDup (keys d) ->
  mask_secrets (JDict d) _path
  = JDict (map (fun kv => (fst kv, mask_entry _path (fst kv) (snd kv))) d).
Proof.
  intros Hnd. cbn [mask_secrets]. f_equal.
  rewrite (fold_dict_set (mask_entry _path)); [done | | done].
  intros result k v. destruct v; try done.
  cbn [mask_entry mask_secrets].
  by destruct (bool_decide (k ∈ SECRET_FIELDS) && negb (String.eqb s "")).
Qed.

Lemma merge_secrets_not_dict_l (D E : json) :
  is_dict D = false -> merge_secrets D E = D.
Proof. by destruct D. Qed.

Lemma merge_secrets_not_dict_r (D E : json) :
  is_dict E = false -> merge_secrets D E = D.
Proof. by destruct D, E. Qed.

(** One level of [merge_secrets] on two dicts. *)
Lemma merge_secrets_dict (d e : list (string * json)) :
  NoDup (keys d) ->
  merge_secrets (JDict d) (JDict e)
  = JDict (map (fun kv => (fst kv, merge_entry e (fst kv) (snd kv))) d).
Proof.
  intros Hnd. cbn [merge_secrets]. f_equal.
  rewrite (fold_dict_set (merge_entry e)); [done | | done].
  intros result k v. unfold merge_entry, secret_placeholder.
  destruct v; try (by rewrite andb_false_r).
  by destruct (bool_decide (k ∈ SECRET_FIELDS) && placeholder s).
Qed.

(** ** The mask engine *)

Lemma mask_document_kind (v : json) :
  match v with
  | JStr _ => True
  | _ => is_str (mask_document v) = false
  end.
Proof. by destruct v. Qed.

Lemma mask_secrets_refines (data : json) :
  forall _path, unique_keys data = true ->
    mask_secrets data _path = mask_document data.
Proof.
  induction data as [| | | | |l IH|d IH] using json_ind; intros _path Hu; try done.
  - cbn [mask_secrets mask_document]. f_equal.
    apply unique_keys_list in Hu.
    induction IH as [|x l Hx _ IHl]; [done|].
    apply Forall_cons in Hu as [Hux Hul].
    cbn [map]. by rewrite Hx, IHl.
  - apply unique_keys_dict in Hu as [Hnd Hu].
    rewrite mask_secrets_dict by done. cbn [mask_document]. f_equal.
    clear Hnd. induction IH as [|[k v] d Hv _ IHd]; [done|].
    apply Forall_cons in Hu as [Huv Hud].
    cbn [map fst snd]. rewrite IHd by done. do 2 f_equal.
    destruct v; try (by apply Hv).
    rewrite mask_entry_str, string_eqb_eq, mask_value_MaskedValue. done.
Qed.

Lemma mask_document_idem (data : json) :
  mask_document (mask_document data) = mask_document data.
Proof.
  induction data as [| | | | |l IH|d IH] using json_ind; try done.
  - cbn [mask_document]. f_equal. rewrite map_map.
    induction IH as [|x l Hx _ IHl]; [done|]. cbn [map]. by rewrite Hx, IHl.
  - cbn [mask_document]. f_equal. rewrite map_map.
    apply map_ext_Forall. eapply Forall_impl; [exact IH|].
    intros [k v] Hv. cbn [fst snd] in *. f_equal.
    destruct v; try done.
    + destruct (bool_decide (k ∈ SECRET_FIELDS)); cbn [andb]; [|done].
      destruct (decide (s = "")) as [->|Hne]; [done|].
      rewrite (bool_decide_eq_false_2 _ Hne). cbn [negb].
      rewrite <- !mask_value_MaskedValue, mask_value_idem.
      rewrite <- string_eqb_eq, mask_value_nonempty. done.
Qed.

Lemma unique_keys_mask_document (data : json) :
  unique_keys data = true -> unique_keys (mask_document data) = true.
Proof.
  induction data as [| | | | |l IH|d IH] using json_ind; try done.
  - intros Hu. apply unique_keys_list in Hu.
    cbn [mask_document]. apply unique_keys_list.
    apply Forall_map. eapply Forall_impl; [apply Forall_and; split; [exact IH | exact Hu]|].
    intros x [H1 H2]; auto.
  - intros Hu. apply unique_keys_dict in Hu as [Hnd Hu].
    cbn [mask_document]. apply unique_keys_dict. split.
    + unfold keys in *. rewrite map_map. cbn [fst]. exact Hnd.
    + apply Forall_map. eapply Forall_impl; [apply Forall_and; split; [exact IH | exact Hu]|].
      intros [k v] [H1 H2]. cbn [fst snd] in *.
      destruct v; try done; try (by apply H1).
      by destruct (_ && _).
Qed.

(** C3: on every document (keys unique in each dict), [mask_secrets]
    replaces the value of each dict entry whose key is in the secret-field
    set and whose value is a non-empty string by ["***"] when the value has
    at most 8 characters and by its first 8 characters followed by ["***"]
    otherwise; all other nodes (non-secret keys, empty-string secrets,
    non-string secret values, list elements) keep their place and are walked
    in turn.  [mask_document] is that description. *)
Theorem mask_secrets_spec (data : json) (_path : string) :
  unique_keys data = true ->
  mask_secrets data _path = mask_document data.
Proof. apply mask_secrets_refines. Qed.

Lemma mask_secrets_spec_witness :
  unique_keys stored_example = true
  /\ mask_secrets stored_example "" = mask_document stored_example.
Proof.
  split; [reflexivity | apply (mask_secrets_spec stored_example ""); reflexivity].
Defined.

(** C5: the mask rule applied to a masked value gives that masked value
    again, and masking a masked document changes nothing: [mask(mask(D))]
    and [mask(D)] agree on every secret leaf (and everywhere else). *)
Theorem mask_secrets_idempotent (D : json) (p p' : string) :
  unique_keys D = true ->
  (forall v : string, mask_value (mask_value v) = mask_value v)
  /\ mask_secrets (mask_secrets D p) p' = mask_secrets D p.
Proof.
  intros Hu. split; [apply mask_value_idem|].
  rewrite (mask_secrets_refines D p Hu).
  rewrite mask_secrets_refines by (by apply unique_keys_mask_document).
  apply mask_document_idem.
Qed.

Lemma mask_secrets_idempotent_witness :
  unique_keys stored_example = true
  /\ (forall v : string, mask_value (mask_value v) = mask_value v)
  /\ mask_secrets (mask_secrets stored_example "") "" = mask_secrets stored_example "".
Proof.
  split; [reflexivity | apply (mask_secrets_idempotent stored_example "" ""); reflexivity].
Defined.

(** ** The merge engine *)

Lemma unique_keys_lookup (d : list (string * json)) (k : string) (x : json) :
  unique_keys (JDict d) = true -> dict_lookup k d = Some x ->
  unique_keys x = true.
Proof.
  intros [_ Hu]%unique_keys_dict Hk%dict_lookup_elem_of.
  rewrite Forall_forall in Hu. exact (Hu _ Hk).
Qed.

Lemma lookup_path_cons_dict (k : string) (q : list string) (x v : json) :
  lookup_path (k :: q) x = Some v ->
  exists d y, x = JDict d /\ dict_lookup k d = Some y /\ lookup_path q y = Some v.
Proof.
  destruct x as [| | | | | |d]; try done. cbn [lookup_path].
  destruct (dict_lookup k d) as [y|] eqn:Hk; [|done]. eauto.
Qed.

Lemma lookup_path_to_dict_not_str (q : list string) (x : json)
    (d : list (string * json)) :
  lookup_path q x = Some (JDict d) -> is_str x = false.
Proof. destruct q, x; simpl; congruence. Qed.

Lemma lookup_path_snoc_not_str (q : list string) (k : string) (x v : json) :
  lookup_path (q ++ [k]) x = Some v -> is_str x = false.
Proof. destruct q, x; simpl; congruence. Qed.

Lemma merge_entry_not_str (e : list (string * json)) (k : string) (x : json) :
  is_str x = false -> merge_entry e k x = merge_secrets x (dict_get e k (JDict [])).
Proof.
  intros Hx. unfold merge_entry, secret_placeholder.
  destruct x; try done; by rewrite andb_false_r.
Qed.

(** Below a key whose incoming value is not a string, the merge goes on
    with the existing value found under that key, or [{}]. *)
Lemma lookup_path_merge_cons (d e : list (string * json)) (k : string)
    (q : list string) (x : json) :
  NoDup (keys d) -> dict_lookup k d = Some x -> is_str x = false ->
  lookup_path (k :: q) (merge_secrets (JDict d) (JDict e))
  = lookup_path q (merge_secrets x (dict_get e k (JDict []))).
Proof.
  intros Hnd Hk Hx. rewrite merge_secrets_dict by done.
  cbn [lookup_path]. rewrite dict_lookup_map, Hk. cbn [fmap option_fmap option_map].
  by rewrite merge_entry_not_str.
Qed.

(** The result has exactly the incoming keys, at every level. *)
Lemma merge_keeps_incoming_keys (p : list string) :
  forall (D E : json) (d : list (string * json)),
    unique_keys D = true -> lookup_path p D = Some (JDict d) ->
    exists r, lookup_path p (merge_secrets D E) = Some (JDict r)
              /\ keys r = keys d.
Proof.
  induction p as [|k q IH]; intros D E d Hu Hp.
  - cbn [lookup_path] in Hp. injection Hp as ->.
    apply unique_keys_dict in Hu as [Hnd _].
    destruct (is_dict E) eqn:HE.
    + destruct E; try done. rewrite merge_secrets_dict by done.
      eexists; split; [done | apply keys_map].
    + rewrite merge_secrets_not_dict_r by done. eauto.
  - apply lookup_path_cons_dict in Hp as Hp'.
    destruct Hp' as (d0 & x & -> & Hk & Hq).
    destruct (is_dict E) eqn:HE.
    + destruct E as [| | | | | |e]; try done.
      rewrite (lookup_path_merge_cons d0 e k q x).
      * apply IH; [by eapply unique_keys_lookup | done].
      * by apply unique_keys_dict in Hu as [? _].
      * done.
      * by eapply lookup_path_to_dict_not_str.
    + rewrite merge_secrets_not_dict_r by done. eauto.
Qed.

(** A non-dict incoming value that is not a secret placeholder is stored
    as it is, at every level. *)
Lemma merge_keeps_incoming_value (p : list string) :
  forall (D E : json) (k : string) (v : json),
    unique_keys D = true -> lookup_path (p ++ [k]) D = Some v ->
    is_dict v = false -> secret_placeholder k v = false ->
    lookup_path (p ++ [k]) (merge_secrets D E) = Some v.
Proof.
  induction p as [|k0 q IH]; intros D E k v Hu Hp Hv Hs.
  - cbn [app] in *. apply lookup_path_cons_dict in Hp as Hp'.
    destruct Hp' as (d0 & x & -> & Hk & Hq). injection Hq as ->.
    destruct (is_dict E) eqn:HE.
    + destruct E as [| | | | | |e]; try done.
      apply unique_keys_dict in Hu as [Hnd _].
      rewrite merge_secrets_dict by done. cbn [lookup_path].
      rewrite dict_lookup_map, Hk. cbn [fmap option_fmap option_map].
      unfold merge_entry. rewrite Hs.
      by rewrite merge_secrets_not_dict_l.
    + by rewrite merge_secrets_not_dict_r.
  - cbn [app] in *. apply lookup_path_cons_dict in Hp as Hp'.
    destruct Hp' as (d0 & x & -> & Hk & Hq).
    destruct (is_dict E) eqn:HE.
    + destruct E as [| | | | | |e]; try done.
      rewrite (lookup_path_merge_cons d0 e k0 (q ++ [k]) x).
      * apply IH; try done. by eapply unique_keys_lookup.
      * by apply unique_keys_dict in Hu as [? _].
      * done.
      * by eapply lookup_path_snoc_not_str.
    + by rewrite merge_secrets_not_dict_r.
Qed.

Lemma dict_lookup_of_elem (d : list (string * json)) (k : string) (v : json) :
  NoDup (keys d) -> (k, v) ∈ d -> dict_lookup k d = Some v.
Proof.
  induction d as [|[k' x] d IH]; cbn [keys map fst dict_lookup].
  - by intros _ ?%elem_of_nil.
  - intros [Hnotin Hnd]%NoDup_cons [[= -> ->]|Hin]%elem_of_cons.
    + by rewrite String.eqb_refl.
    + destruct (String.eqb_spec k' k) as [->|Hne]; [|by apply IH].
      exfalso. apply Hnotin. unfold keys.
      apply (list_elem_of_fmap_2 fst _ _ Hin).
Qed.

(** An incoming document without secret placeholders is stored as it is. *)
Lemma merge_secrets_no_placeholder (D : json) :
  forall E, unique_keys D = true -> no_secret_placeholder D = true ->
    merge_secrets D E = D.
Proof.
  induction D as [| | | | |l _|d IH] using json_ind; intros E Hu Hn; try done.
  destruct (is_dict E) eqn:HE; [|by rewrite merge_secrets_not_dict_r].
  destruct E as [| | | | | |e]; try done.
  apply unique_keys_dict in Hu as [Hnd Hu].
  rewrite merge_secrets_dict by done. f_equal.
  cbn [no_secret_placeholder] in Hn. rewrite forallb_forall in Hn.
  rewrite <- (map_id d) at 2. apply map_ext_Forall.
  rewrite Forall_forall in *. intros [k v] Hin. cbn [fst snd]. f_equal.
  specialize (Hn _ (proj1 (list_elem_of_In _ _) Hin)). cbn [fst snd] in Hn.
  apply andb_true_iff in Hn as [Hp Hn]. apply negb_true_iff in Hp.
  unfold merge_entry. rewrite Hp.
  apply (IH _ Hin); [exact (Hu _ Hin) | exact Hn].
Qed.

(** C2 (as amended): from any stored document in which
    [providers.anthropic.api_key] is the empty string, merging
    [{"providers":{"anthropic":{"api_key":"sk-real-value-123456"}}}] stores
    that value verbatim, and masking the stored result shows the key as its
    first 8 characters and the marker: ["sk-real-***"]. *)
Theorem merge_then_mask_scenario (E : json) :
  lookup_path ["providers"; "anthropic"; "api_key"] E = Some (JStr "") ->
  lookup_path ["providers"; "anthropic"; "api_key"] (merge_secrets submitted_key E)
  = Some (JStr "sk-real-value-123456")
  /\ lookup_path ["providers"; "anthropic"; "api_key"]
       (mask_secrets (merge_secrets submitted_key E) "")
     = Some (JStr "sk-real-***").
Proof.
  intros _. rewrite merge_secrets_no_placeholder by reflexivity.
  split; reflexivity.
Qed.

Lemma merge_then_mask_scenario_witness :
  lookup_path ["providers"; "anthropic"; "api_key"] default_config = Some (JStr "")
  /\ lookup_path ["providers"; "anthropic"; "api_key"]
       (merge_secrets submitted_key default_config)
     = Some (JStr "sk-real-value-123456")
  /\ lookup_path ["providers"; "anthropic"; "api_key"]
       (mask_secrets (merge_secrets submitted_key default_config) "")
     = Some (JStr "sk-real-***").
Proof.
  split; [reflexivity | apply (merge_then_mask_scenario default_config); reflexivity].
Defined.

(** C2 as stated fails: the masked value is not ["sk-real-v***"], which
    would keep 9 characters of the key. *)
Lemma merge_then_mask_counterexample :
  lookup_path ["providers"; "anthropic"; "api_key"] default_config = Some (JStr "")
  /\ lookup_path ["providers"; "anthropic"; "api_key"]
       (mask_secrets (merge_secrets submitted_key default_config) "")
     <> Some (JStr "sk-real-v***").
Proof. split; [reflexivity | vm_compute; discriminate]. Qed.

(** C4: the merge is a full replace.  At every level the result has
    exactly the keys of the incoming dict, so a key that the incoming dict
    lacks is absent from the result whatever the existing document holds;
    and a non-dict incoming value (other than a secret placeholder) is
    stored verbatim. *)
Theorem merge_secrets_full_replace (D E : json) :
  unique_keys D = true ->
  (forall p d, lookup_path p D = Some (JDict d) ->
     exists r, lookup_path p (merge_secrets D E) = Some (JDict r)
               /\ keys r = keys d
               /\ forall k, dict_lookup k d = None -> dict_lookup k r = None)
  /\ (forall p k v, lookup_path (p ++ [k]) D = Some v ->
        is_dict v = false -> secret_placeholder k v = false ->
        lookup_path (p ++ [k]) (merge_secrets D E) = Some v)
  /\ (is_dict D = false -> merge_secrets D E = D).
Proof.
  intros Hu. split; [|split].
  - intros p d Hp.
    destruct (merge_keeps_incoming_keys p D E d Hu Hp) as (r & Hr & Hk).
    exists r. split; [done|]. split; [done|].
    intros k. rewrite !dict_lookup_None. by rewrite Hk.
  - intros p k v. by apply merge_keeps_incoming_value.
  - apply merge_secrets_not_dict_l.
Qed.

Lemma merge_secrets_full_replace_witness :
  unique_keys submitted_key = true
  /\ exists r,
       lookup_path ["providers"] (merge_secrets submitted_key default_config)
       = Some (JDict r)
       /\ keys r = ["anthropic"]
       /\ dict_lookup "openai" r = None.
Proof.
  split; [reflexivity|].
  destruct (merge_secrets_full_replace submitted_key default_config eq_refl)
    as (Hkeys & _ & _).
  destruct (Hkeys ["providers"] _ eq_refl) as (r & Hr & Hk & Hnone).
  exists r. split; [exact Hr|]. split; [exact Hk|]. apply Hnone. reflexivity.
Defined.

(** C10 (as amended): under a key of the secret-field set whose incoming
    value is not a string, no placeholder substitution takes place: the
    result holds the ordinary recursion [merge_secrets(v, existing.get(k, {}))].
    That is the incoming value verbatim when it is not a dict, and also when
    the existing value under the key is not a dict, so a non-string incoming
    value overwrites a stored real secret. *)
Theorem merge_secrets_non_string_secret
    (d e : list (string * json)) (k : string) (v : json) :
  NoDup (keys d) -> dict_lookup k d = Some v ->
  k ∈ SECRET_FIELDS -> is_str v = false ->
  exists r, merge_secrets (JDict d) (JDict e) = JDict r
    /\ dict_lookup k r = Some (merge_secrets v (dict_get e k (JDict [])))
    /\ (is_dict v = false -> dict_lookup k r = Some v)
    /\ (forall x, dict_lookup k e = Some x -> is_dict x = false ->
          dict_lookup k r = Some v).
Proof.
  intros Hnd Hk _ Hv. eexists. split; [by apply merge_secrets_dict|].
  rewrite dict_lookup_map, Hk. cbn [fmap option_fmap option_map].
  rewrite merge_entry_not_str by done. split; [done|]. split.
  - intros Hd. by rewrite merge_secrets_not_dict_l.
  - intros x Hx Hd. unfold dict_get. rewrite Hx. cbn [default].
    by rewrite merge_secrets_not_dict_r.
Qed.

Lemma merge_secrets_non_string_secret_witness :
  NoDup (keys [("api_key", JInt 0)])
  /\ dict_lookup "api_key" [("api_key", JInt 0)] = Some (JInt 0)
  /\ "api_key" ∈ SECRET_FIELDS
  /\ is_str (JInt 0) = false
  /\ exists r,
       merge_secrets (JDict [("api_key", JInt 0)])
                     (JDict [("api_key", JStr "sk-real-value-123456")]) = JDict r
       /\ dict_lookup "api_key" r = Some (JInt 0).
Proof.
  assert (Hnd : NoDup (keys [("api_key", JInt 0)])) by compute_done.
  assert (Hin : "api_key" ∈ SECRET_FIELDS) by compute_done.
  split; [exact Hnd|]. split; [reflexivity|]. split; [exact Hin|].
  split; [reflexivity|].
  destruct (merge_secrets_non_string_secret
              [("api_key", JInt 0)] [("api_key", JStr "sk-real-value-123456")]
              "api_key" (JInt 0) Hnd eq_refl Hin eq_refl)
    as (r & Hr & _ & Hv & _).
  exists r. split; [exact Hr | exact (Hv eq_refl)].
Defined.

(** C10 as stated fails for a dict: the incoming value under the secret
    key is not taken verbatim, its nested placeholder is filled in from the
    existing document. *)
Lemma merge_secrets_non_string_secret_counterexample :
  let D := JDict [("api_key", JDict [("token", JStr "***")])] in
  let E := JDict [("api_key", JDict [("token", JStr "real-secret")])] in
  "api_key" ∈ SECRET_FIELDS
  /\ lookup_path ["api_key"] D = Some (JDict [("token", JStr "***")])
  /\ lookup_path ["api_key"] (merge_secrets D E)
     = Some (JDict [("token", JStr "real-secret")])
  /\ lookup_path ["api_key"] (merge_secrets D E) <> lookup_path ["api_key"] D.
Proof.
  cbv zeta. split; [compute_done|].
  split; [reflexivity|]. split; [reflexivity|]. vm_compute. discriminate.
Qed.

(** [dicts_along p E] in terms of [lookup_path]: whatever [E] holds at a
    prefix of [p] is a dict. *)
Lemma dicts_along_prefixes (p : list string) (E : json) :
  dicts_along p E = true
  <-> forall q x, q `prefix_of` p -> lookup_path q E = Some x -> is_dict x = true.
Proof.
  revert E. induction p as [|k p IH]; intros E; split.
  - intros HE q x ->%prefix_nil_inv [= <-]. by destruct E.
  - intros H. specialize (H [] E (prefix_nil _) eq_refl). by destruct E.
  - intros HE q x Hq Hx. destruct E as [| | | | | |e]; try done.
    destruct q as [|k' q]; [by injection Hx as <-|].
    apply prefix_cons_inv_1 in Hq as Hk. subst k'.
    apply prefix_cons_inv_2 in Hq.
    apply lookup_path_cons_dict in Hx as (e' & y & [= <-] & Hk & Hy).
    cbn [dicts_along] in HE. rewrite Hk in HE.
    by apply (IH y) with q.
  - intros H. pose proof (H [] E (prefix_nil _) eq_refl) as HE.
    destruct E as [| | | | | |e]; try done. cbn [dicts_along].
    destruct (dict_lookup k e) as [y|] eqn:Hk; [|done].
    apply IH. intros q x Hq Hx. apply (H (k :: q) x).
    + by apply prefix_cons.
    + cbn [lookup_path]. by rewrite Hk.
Qed.

Lemma secret_leaves_masked_lookup (d : list (string * json)) (k : string) (x : json) :
  secret_leaves_masked (JDict d) = true -> dict_lookup k d = Some x ->
  secret_leaves_masked x = true
  /\ (k ∈ SECRET_FIELDS -> secret_placeholder k x = true).
Proof.
  cbn [secret_leaves_masked]. rewrite forallb_forall.
  intros Hm Hk%dict_lookup_elem_of%list_elem_of_In.
  specialize (Hm _ Hk). cbn [fst snd] in Hm.
  apply andb_true_iff in Hm as [Hs Hx]. split; [done|].
  intros Hin. unfold secret_placeholder.
  rewrite (bool_decide_eq_true_2 _ Hin) in *. by destruct x.
Qed.

Lemma lookup_path_existing_cons (e : list (string * json)) (k0 k : string)
    (q : list string) :
  lookup_path (k0 :: q ++ [k]) (JDict e)
  = lookup_path (q ++ [k]) (dict_get e k0 (JDict [])).
Proof.
  cbn [lookup_path]. unfold dict_get.
  destruct (dict_lookup k0 e); [done|]. by destruct q.
Qed.

Lemma secret_leaves_masked_path (p : list string) :
  forall (D : json) (k : string) (v : json),
    secret_leaves_masked D = true -> lookup_path (p ++ [k]) D = Some v ->
    k ∈ SECRET_FIELDS -> secret_placeholder k v = true.
Proof.
  induction p as [|k0 q IH]; intros D k v Hm Hp Hin; cbn [app] in Hp;
    apply lookup_path_cons_dict in Hp as (d0 & x & -> & Hk & Hq).
  - injection Hq as ->.
    by destruct (secret_leaves_masked_lookup d0 k v Hm Hk) as [_ Hs]; apply Hs.
  - destruct (secret_leaves_masked_lookup d0 k0 x Hm Hk) as [Hmx _].
    by apply (IH x).
Qed.

(** A secret placeholder is replaced by the existing value at the same
    path, or by the empty string when there is none, as long as the
    existing document holds dicts along the way; below an existing value
    that is not a dict the placeholder stays as it was submitted. *)
Lemma merge_substitutes_placeholder (p : list string) :
  forall (D E : json) (k : string) (v : json),
    unique_keys D = true ->
    lookup_path (p ++ [k]) D = Some v -> secret_placeholder k v = true ->
    lookup_path (p ++ [k]) (merge_secrets D E)
    = Some (if dicts_along p E
            then default (JStr "") (lookup_path (p ++ [k]) E)
            else v).
Proof.
  induction p as [|k0 q IH]; intros D E k v Hu Hp Hs.
  - cbn [app] in *. apply lookup_path_cons_dict in Hp as Hp'.
    destruct Hp' as (d0 & x & -> & Hk & Hq). injection Hq as ->.
    destruct (is_dict E) eqn:HE.
    + destruct E as [| | | | | |e]; try done.
      apply unique_keys_dict in Hu as [Hnd _].
      rewrite merge_secrets_dict by done. cbn [lookup_path dicts_along].
      rewrite dict_lookup_map, Hk. cbn [fmap option_fmap option_map].
      unfold merge_entry. rewrite Hs. unfold dict_get.
      by destruct (dict_lookup k e).
    + rewrite merge_secrets_not_dict_r by done.
      replace (dicts_along [] E) with false by (by destruct E). done.
  - cbn [app] in Hp. apply lookup_path_cons_dict in Hp as Hp'.
    destruct Hp' as (d0 & x & -> & Hk & Hq).
    destruct (is_dict E) eqn:HE.
    + destruct E as [| | | | | |e]; try done.
      cbn [app]. rewrite lookup_path_existing_cons.
      rewrite (lookup_path_merge_cons d0 e k0 (q ++ [k]) x).
      * rewrite (IH x _ k v); [|by eapply unique_keys_lookup|done|done].
        cbn [dicts_along]. unfold dict_get.
        destruct (dict_lookup k0 e) as [y|]; [done|].
        cbn [default from_option].
        replace (dicts_along q (JDict [])) with true by (by destruct q).
        done.
      * by apply unique_keys_dict in Hu as [? _].
      * done.
      * by eapply lookup_path_snoc_not_str.
    + rewrite merge_secrets_not_dict_r by done.
      replace (dicts_along (k0 :: q) E) with false by (by destruct E).
      cbn [app lookup_path]. rewrite Hk. exact Hq.
Qed.

(** Where the existing document holds a value that is not a dict, a dict of
    the incoming document is stored as it was submitted. *)
Lemma merge_keeps_dict_over_non_dict (p : list string) :
  forall (D E : json) (d : list (string * json)) (x : json),
    unique_keys D = true -> lookup_path p D = Some (JDict d) ->
    lookup_path p E = Some x -> is_dict x = false ->
    lookup_path p (merge_secrets D E) = Some (JDict d).
Proof.
  induction p as [|k q IH]; intros D E d x Hu Hp HE Hx.
  - cbn [lookup_path] in *. injection Hp as ->. injection HE as ->.
    by rewrite merge_secrets_not_dict_r.
  - apply lookup_path_cons_dict in Hp as Hp'.
    destruct Hp' as (d0 & y & -> & Hk & Hq).
    apply lookup_path_cons_dict in HE as (e & z & -> & Hz & Hqz).
    rewrite (lookup_path_merge_cons d0 e k q y).
    + unfold dict_get. rewrite Hz. cbn [default from_option].
      apply (IH y z d x); try done. by eapply unique_keys_lookup.
    + by apply unique_keys_dict in Hu as [? _].
    + done.
    + by eapply lookup_path_to_dict_not_str.
Qed.

Lemma mask_document_dict_free (v : json) :
  dict_free v = true -> mask_document v = v.
Proof.
  induction v as [| | | | |l IH|d _] using json_ind; try done.
  cbn [dict_free mask_document]. rewrite forallb_forall. intros Hf. f_equal.
  rewrite <- (map_id l) at 2. apply map_ext_Forall.
  rewrite Forall_forall in *. intros x Hin. apply (IH _ Hin).
  apply Hf. by apply list_elem_of_In.
Qed.

Lemma secret_placeholder_not_str (k : string) (v : json) :
  is_str v = false -> secret_placeholder k v = false.
Proof. unfold secret_placeholder. destruct v; try done; by rewrite andb_false_r. Qed.

(** Writing back what the mask engine returned restores the stored
    document. *)
Lemma merge_mask_roundtrip (E : json) :
  unique_keys E = true -> lists_dict_free E = true ->
  merge_secrets (mask_document E) E = E.
Proof.
  induction E as [| | | | |l _|d IH] using json_ind; intros Hu Hl; try done.
  - cbn [lists_dict_free] in Hl.
    rewrite (mask_document_dict_free (JList l)) by done. done.
  - pose proof (unique_keys_mask_document _ Hu) as Hu'.
    apply unique_keys_dict in Hu as [Hnd Hu].
    cbn [mask_document] in *. apply unique_keys_dict in Hu' as [Hnd' _].
    rewrite merge_secrets_dict by done. f_equal. rewrite map_map.
    cbn [lists_dict_free] in Hl. rewrite forallb_forall in Hl.
    transitivity (map id d); [|apply map_id]. apply map_ext_Forall.
    rewrite Forall_forall in *. intros [k v] Hin. unfold id. cbn [fst snd]. f_equal.
    assert (Hk : dict_lookup k d = Some v) by (by apply dict_lookup_of_elem).
    unfold merge_entry, dict_get. rewrite Hk. cbn [from_option]. unfold id.
    destruct (is_str v) eqn:Hv.
    + destruct v as [| | | |s| |]; try done.
      destruct (bool_decide (k ∈ SECRET_FIELDS)) eqn:Hsec; cbn [andb].
      * destruct (decide (s = "")) as [->|Hne].
        -- rewrite bool_decide_eq_true_2 by done. cbn [negb].
           unfold secret_placeholder. by rewrite Hsec.
        -- rewrite bool_decide_eq_false_2 by done. cbn [negb].
           unfold secret_placeholder.
           by rewrite Hsec, <- mask_value_MaskedValue, mask_value_placeholder.
      * unfold secret_placeholder. by rewrite Hsec.
    + replace (match v with
               | JStr s => _
               | _ => mask_document v
               end) with (mask_document v) by (by destruct v).
      rewrite secret_placeholder_not_str.
      * apply (IH _ Hin); [exact (Hu _ Hin)|].
        apply (Hl (k, v)). by apply list_elem_of_In.
      * pose proof (mask_document_kind v). by destruct v.
Qed.

(** C1 (as amended): let [D] be the incoming and [E] the existing
    document.  When every secret leaf of [D] is a string that is empty or
    ends with ["***"], [merge_secrets D E] replaces each secret leaf
    reached through dicts by the value [E] has at the same path, or by the
    empty string when [E] has none, provided [E] holds a dict or nothing at
    every prefix of the path of the dict the leaf sits in; otherwise the
    leaf is stored as it was submitted.  The result has the keys of [D] at
    every level.  Where [E] holds a value that is not a dict at the path of
    a dict of [D], that dict is stored as submitted.  Every value of [D]
    under a key that is not secret is reproduced exactly unless it is a
    dict, and so is [D] itself when it is not a dict.  And for a stored
    document [E] in which no list holds a dict, writing back the masked
    document read from it restores [E]: no stored secret is erased or
    corrupted. *)
Theorem merge_secrets_placeholders (D E : json) (_path : string) :
  (unique_keys D = true ->
     (secret_leaves_masked D = true ->
      forall p k v, lookup_path (p ++ [k]) D = Some v -> k ∈ SECRET_FIELDS ->
        lookup_path (p ++ [k]) (merge_secrets D E)
        = Some (if dicts_along p E
                then default (JStr "") (lookup_path (p ++ [k]) E)
                else v))
     /\ (forall p d, lookup_path p D = Some (JDict d) ->
           exists r, lookup_path p (merge_secrets D E) = Some (JDict r)
                     /\ keys r = keys d)
     /\ (forall p d x, lookup_path p D = Some (JDict d) ->
           lookup_path p E = Some x -> is_dict x = false ->
           lookup_path p (merge_secrets D E) = Some (JDict d))
     /\ (forall p k v, lookup_path (p ++ [k]) D = Some v ->
           k ∉ SECRET_FIELDS -> is_dict v = false ->
           lookup_path (p ++ [k]) (merge_secrets D E) = Some v)
     /\ (is_dict D = false -> merge_secrets D E = D))
  /\ (unique_keys E = true -> lists_dict_free E = true ->
      merge_secrets (mask_secrets E _path) E = E).
Proof.
  split.
  - intros Hu. split; [|split; [|split; [|split]]].
    + intros Hm p k v Hp Hin. apply merge_substitutes_placeholder; try done.
      by apply (secret_leaves_masked_path p D).
    + intros p d. by apply merge_keeps_incoming_keys.
    + intros p d x. by apply merge_keeps_dict_over_non_dict.
    + intros p k v Hp Hk Hv. apply merge_keeps_incoming_value; try done.
      unfold secret_placeholder. by rewrite bool_decide_eq_false_2.
    + apply merge_secrets_not_dict_l.
  - intros Hu Hl. rewrite mask_secrets_refines by done.
    by apply merge_mask_roundtrip.
Qed.

Lemma merge_secrets_placeholders_witness :
  let D := mask_secrets stored_example "" in
  let E := stored_example in
  (unique_keys D = true /\ secret_leaves_masked D = true)
  /\ (unique_keys E = true /\ lists_dict_free E = true)
  /\ dicts_along ["providers"; "anthropic"] E = true
  /\ lookup_path ["providers"; "anthropic"; "api_key"] D = Some (JStr "sk-real-***")
  /\ lookup_path ["providers"; "anthropic"; "api_key"] (merge_secrets D E)
     = Some (JStr "sk-real-value-123456")
  /\ merge_secrets D E = E
  /\ (unique_keys submitted_placeholder = true
      /\ lookup_path ["providers"; "anthropic"] stored_flat_provider
         = Some (JStr "disabled")
      /\ lookup_path ["providers"; "anthropic"]
           (merge_secrets submitted_placeholder stored_flat_provider)
         = Some (JDict [("api_key", JStr "***")])).
Proof.
  cbv zeta.
  split; [split; reflexivity|]. split; [split; reflexivity|].
  split; [reflexivity|]. split; [reflexivity|].
  destruct (merge_secrets_placeholders
              (mask_secrets stored_example "") stored_example "")
    as [Hmerge Hround].
  destruct (Hmerge eq_refl) as (Hsecret & _ & _ & _ & _).
  split; [|split].
  - assert (Hin : "api_key" ∈ SECRET_FIELDS) by compute_done.
    exact (Hsecret eq_refl ["providers"; "anthropic"] "api_key" _ eq_refl Hin).
  - exact (Hround eq_refl eq_refl).
  - split; [reflexivity|]. split; [reflexivity|].
    destruct (merge_secrets_placeholders
                submitted_placeholder stored_flat_provider "")
      as [Hflat _].
    destruct (Hflat eq_refl) as (_ & _ & Hkept & _ & _).
    exact (Hkept ["providers"; "anthropic"] _ _ eq_refl eq_refl eq_refl).
Defined.

(** C1 as stated fails.  When the existing document has a non-dict where
    the incoming one has a dict, the placeholder below is stored as it is,
    although the existing document has no value at that path.  And a secret
    in a dict inside a list is not restored either: writing back the masked
    document stores the masked string over the real key. *)
Lemma merge_secrets_placeholders_counterexample :
  (unique_keys submitted_placeholder = true
   /\ secret_leaves_masked submitted_placeholder = true
   /\ lookup_path ["providers"; "anthropic"; "api_key"] stored_flat_provider = None
   /\ lookup_path ["providers"; "anthropic"; "api_key"]
        (merge_secrets submitted_placeholder stored_flat_provider)
      = Some (JStr "***")
   /\ lookup_path ["providers"; "anthropic"; "api_key"]
        (merge_secrets submitted_placeholder stored_flat_provider)
      <> Some (default (JStr "")
                 (lookup_path ["providers"; "anthropic"; "api_key"]
                    stored_flat_provider)))
  /\ (unique_keys stored_model_list = true
      /\ secret_leaves_masked (mask_secrets stored_model_list "") = true
      /\ merge_secrets (mask_secrets stored_model_list "") stored_model_list
         = JDict [("model_list",
                   JList [JDict [("model_name", JStr "glm-4.7");
                                 ("api_key", JStr "sk-real-***")]])]
      /\ merge_secrets (mask_secrets stored_model_list "") stored_model_list
         <> stored_model_list).
Proof.
  split.
  - repeat split; try reflexivity. vm_compute. discriminate.
  - repeat split; try reflexivity. vm_compute. discriminate.
Qed.

(** ** The log buffer *)

Lemma deque_append_length {A : Type} (maxlen : nat) (x : A) (d : list A) :
  length d <= maxlen -> length (deque_append maxlen x d) <= maxlen.
Proof.
  intros Hd. unfold deque_append.
  destruct (Nat.ltb_spec maxlen (length (d ++ [x]))) as [Hlt|Hle]; [|done].
  rewrite length_drop, length_app in *. simpl in *. lia.
Qed.

Lemma deque_append_last {A : Type} (maxlen : nat) (x : A) (d : list A) :
  0 < maxlen -> last (deque_append maxlen x d) = Some x.
Proof.
  intros Hpos. unfold deque_append.
  destruct (Nat.ltb_spec maxlen (length (d ++ [x]))) as [Hlt|Hle].
  - rewrite length_app in Hlt. simpl in Hlt.
    destruct d as [|y d]; simpl in *; [lia|]. apply last_snoc.
  - apply last_snoc.
Qed.

(** Appending [l] to a deque that respects its bound keeps the last
    [maxlen] items of the whole sequence, in order. *)
Lemma deque_appends {A : Type} (maxlen : nat) (l : list A) :
  forall d, length d <= maxlen ->
    fold_left (fun d x => deque_append maxlen x d) l d
    = drop (length d + length l - maxlen) (d ++ l).
Proof.
  induction l as [|x l IH]; intros d Hd; simpl.
  - rewrite app_nil_r. by replace (length d + 0 - maxlen) with 0 by lia.
  - rewrite IH by (by apply deque_append_length).
    unfold deque_append.
    destruct (Nat.ltb_spec maxlen (length (d ++ [x]))) as [Hlt|Hle];
      rewrite length_app in *; simpl in *.
    + rewrite length_drop, length_app. simpl.
      destruct d as [|y d]; simpl in *.
      * replace maxlen with 0 by lia. simpl. f_equal; lia.
      * rewrite drop_0, <- app_assoc. simpl.
        replace (length d + 1 - 0 + length l - maxlen) with (length l) by lia.
        replace (S (length d + S (length l)) - maxlen) with (S (length l)) by lia.
        done.
    + rewrite <- app_assoc. simpl. f_equal. lia.
Qed.

Lemma log_lines_logs (lines : list string) :
  forall w,
    logs (self (log_lines lines w))
    = fold_left (fun d x => deque_append LOGS_MAXLEN x d) lines (logs (self w)).
Proof.
  induction lines as [|x lines IH]; intros w; [done|].
  unfold log_lines in *. cbn [fold_left]. by rewrite IH.
Qed.

(** ** What every step of every task preserves *)

Section preserved.
(** A relation between a world and a later one that every primitive
    respects is respected by every coroutine and every schedule. *)
Variable later : World -> World -> Prop.
Hypothesis later_refl : forall w, later w w.
Hypothesis later_trans : forall w1 w2 w3, later w1 w2 -> later w2 w3 -> later w1 w3.
Hypothesis later_op : forall X (op : Op X) w, later w (fst (exec_op op w)).
Hypothesis later_resolve :
  forall X (a : Awaitable X) env w, later w (fst (resolve a env w)).
Hypothesis later_tasks : forall f w, later w (set_tasks f w).
Hypothesis later_exit : forall h code w, later w (child_exit h code w).
Hypothesis later_tick : forall t w,
  later w {| self := self w; procs := procs w; clock := t; tasks := tasks w |}.

Lemma advance_later {R : Type} (c : coro R) :
  forall w, later w (fst (advance c w)).
Proof.
  induction c as [R r|R e|R X op k IH|R X a k IH|R body IHbody k IHk];
    intros w; cbn [advance]; try apply later_refl.
  - pose proof (later_op X op w) as Hop.
    destruct (exec_op op w) as [w' x]. eapply later_trans; [exact Hop | apply IH].
  - pose proof (IHbody w) as Hb.
    destruct (advance body w) as [w' [[|]| | |]]; cbn [fst] in *; try done.
    eapply later_trans; [exact Hb | apply IHk].
Qed.

Lemma run_later {R : Type} (c : coro R) (env : Env) :
  forall w, later w (fst (run c env w)).
Proof.
  induction c as [R r|R e|R X op k IH|R X a k IH|R body IHbody k IHk];
    intros w; cbn [run]; try apply later_refl.
  - pose proof (later_op X op w) as Hop.
    destruct (exec_op op w) as [w' x]. eapply later_trans; [exact Hop | apply IH].
  - pose proof (later_resolve X a env w) as Hres.
    destruct (resolve a env w) as [w' x]. eapply later_trans; [exact Hres | apply IH].
  - pose proof (IHbody w) as Hb.
    destruct (run body env w) as [w' [[|]| | |]]; cbn [fst] in *; try done.
    eapply later_trans; [exact Hb | apply IHk].
Qed.

Lemma step_later (w : World) (ev : event) : later w (step w ev).
Proof.
  destruct ev as [op|i env|h code|t]; cbn [step]; auto.
  unfold resume. destruct (tasks w !! i) as [[c|X a k| |]|]; auto.
  - pose proof (advance_later c w) as Ha.
    destruct (advance c w) as [w' s]. eapply later_trans; [exact Ha | auto].
  - pose proof (later_resolve X a env w) as Hres.
    destruct (resolve a env w) as [w1 x].
    pose proof (advance_later (k x) w1) as Ha.
    destruct (advance (k x) w1) as [w' s].
    eapply later_trans; [exact Hres|]. eapply later_trans; [exact Ha | auto].
Qed.

Lemma exec_later (evs : list event) : forall w, later w (exec evs w).
Proof.
  induction evs as [|ev evs IH]; intros w; [apply later_refl|].
  unfold exec in *. cbn [fold_left].
  eapply later_trans; [apply step_later | apply IH].
Qed.
End preserved.

Lemma logs_bounded_exec (evs : list event) (w : World) :
  length (logs (self w)) <= LOGS_MAXLEN ->
  length (logs (self (exec evs w))) <= LOGS_MAXLEN.
Proof.
  apply (exec_later
           (fun w w' => length (logs (self w)) <= LOGS_MAXLEN ->
                        length (logs (self w')) <= LOGS_MAXLEN)); clear; auto.
  - intros X op w. destruct op; cbn; auto. apply deque_append_length.
  - intros X a env w. destruct a; cbn; auto.
    + by destruct (spawn_answer env).
    + destruct (proc_returncode w h) eqn:Hrc; [done|].
      destruct (exit_in_time env); [|done].
      unfold child_exit. by rewrite Hrc.
    + destruct (proc_returncode w h) eqn:Hrc; [done|].
      unfold child_exit. by rewrite Hrc.
  - intros h code w. unfold child_exit. by destruct (proc_returncode w h).
Qed.

Lemma restart_count_monotone_exec (evs : list event) (w : World) :
  (restart_count (self w) <= restart_count (self (exec evs w)))%Z.
Proof.
  apply (exec_later
           (fun w w' => (restart_count (self w) <= restart_count (self w'))%Z));
    clear; try (intros; cbn; lia).
  - intros X op w. destruct op; cbn; lia.
  - intros X a env w. destruct a; cbn; try lia.
    + destruct (spawn_answer env); cbn; lia.
    + destruct (proc_returncode w h) eqn:Hrc; [cbn; lia|].
      destruct (exit_in_time env); [|cbn; lia].
      unfold child_exit. rewrite Hrc. cbn. lia.
    + destruct (proc_returncode w h) eqn:Hrc; [cbn; lia|].
      unfold child_exit. rewrite Hrc. cbn. lia.
  - intros h code w. unfold child_exit.
    destruct (proc_returncode w h); cbn; lia.
Qed.

(** C7: the log buffer never holds more than 500 lines, in any world the
    event loop can reach; appending lines to the empty buffer leaves the
    last 500 of them, in the order they were appended, and that is what the
    log snapshot lists; after 501 appends the line appended first is gone
    and the one appended last is there. *)
Theorem log_buffer_bounded_fifo
    (evs : list event) (lines : list string)
    (first last : string) (middle : list string) :
  length (api_logs (exec evs World_init)) <= 500
  /\ length (api_logs (log_lines lines World_init)) <= 500
  /\ api_logs (log_lines lines World_init) = drop (length lines - 500) lines
  /\ (length middle = 499 ->
      api_logs (log_lines (first :: middle ++ [last]) World_init)
      = (middle ++ [last])%list
      /\ last ∈ api_logs (log_lines (first :: middle ++ [last]) World_init)
      /\ (first ∉ middle -> first <> last ->
          first ∉ api_logs (log_lines (first :: middle ++ [last]) World_init))).
Proof.
  assert (Hsnap : forall l, api_logs (log_lines l World_init)
                            = drop (length l - 500) l).
  { intros l. unfold api_logs. rewrite log_lines_logs.
    rewrite deque_appends by (cbn; lia). done. }
  split; [|split; [|split]].
  - apply (logs_bounded_exec evs World_init). cbn. lia.
  - rewrite Hsnap, length_drop. lia.
  - apply Hsnap.
  - intros Hlen. rewrite Hsnap.
    replace (length (first :: middle ++ [last]) - 500) with 1
      by (cbn; rewrite length_app; cbn; lia).
    cbn [drop]. rewrite drop_0. split; [done|]. split.
    + apply elem_of_app. right. apply list_elem_of_singleton. done.
    + intros Hmid Hne [Hin|Hin%list_elem_of_singleton]%elem_of_app; done.
Qed.

Lemma log_buffer_bounded_fifo_witness :
  let middle := map (fun i : nat => "line " +:+ pretty i) (seq 1 499) in
  length middle = 499
  /\ api_logs (log_lines ("line 0" :: middle ++ ["line 500"]) World_init)
     = (middle ++ ["line 500"])%list
  /\ "line 500" ∈ api_logs (log_lines ("line 0" :: middle ++ ["line 500"]) World_init)
  /\ "line 0" ∉ api_logs (log_lines ("line 0" :: middle ++ ["line 500"]) World_init).
Proof.
  cbv zeta.
  set (middle := map (fun i : nat => "line " +:+ pretty i) (seq 1 499)).
  assert (Hlen : length middle = 499) by (subst middle; by rewrite length_map, length_seq).
  split; [exact Hlen|].
  destruct (log_buffer_bounded_fifo [] [] "line 0" "line 500" middle)
    as (_ & _ & _ & Hfifo).
  destruct (Hfifo Hlen) as (Heq & Hlast & Hfirst).
  split; [exact Heq|]. split; [exact Hlast|].
  apply Hfirst; [|done].
  subst middle. intros (i & Heq' & Hi%elem_of_seq)%list_elem_of_fmap.
  injection Heq' as Heq'.
  assert (Hp : pretty 0 = pretty i) by exact Heq'.
  apply (inj pretty) in Hp. lia.
Defined.

(** ** The supervisor, one call at a time *)

Lemma run_bind_finished {R S : Type} (c : coro R) (f : R -> coro S) (env : Env) :
  forall w w' r, run c env w = (w', Finished r) ->
    run (bind c f) env w = run (f r) env w'.
Proof.
  induction c as [R r0|R e|R X op k IH|R X a k IH|R body _ k IHk];
    intros w w' r Hrun; cbn [run bind] in *.
  - by injection Hrun as -> ->.
  - done.
  - destruct (exec_op op w) as [w1 x]. by apply IH.
  - destruct (resolve a env w) as [w1 x]. by apply IH.
  - destruct (run body env w) as [w1 [[|]| | |]]; try done. by apply IHk.
Qed.

Lemma run_process_is_live (env : Env) (w : World) :
  run process_is_live env w = (w, Finished (has_live_process w)).
Proof.
  unfold process_is_live, has_live_process. cbn.
  destruct (process (self w)); reflexivity.
Qed.

Lemma run_start_live (env : Env) (w : World) :
  has_live_process w = true -> run start env w = (w, Finished tt).
Proof.
  intros Hlive. unfold start.
  rewrite (run_bind_finished _ _ _ _ _ _ (run_process_is_live env w)).
  by rewrite Hlive.
Qed.

Lemma run_start_failure (env : Env) (w : World) (msg : string) :
  has_live_process w = false -> spawn_answer env = inl msg ->
  run start env w
  = (fst (exec_op (LogsAppend ("Failed to start gateway: " +:+ msg))
            (fst (exec_op (SetState error)
                    (fst (exec_op (SetState starting) w))))),
     Finished tt).
Proof.
  intros Hlive Hspawn. unfold start.
  rewrite (run_bind_finished _ _ _ _ _ _ (run_process_is_live env w)).
  rewrite Hlive. cbn. by rewrite Hspawn.
Qed.

Lemma run_start_success (env : Env) (w : World) (p : Z) :
  has_live_process w = false -> spawn_answer env = inr p ->
  exists w', run start env w = (w', Finished tt)
    /\ state (self w') = running
    /\ process (self w') = Some (length (procs w))
    /\ procs w' = (procs w ++ [{| pid := p; returncode := None; signals := [] |}])%list
    /\ logs (self w') = logs (self w)
    /\ restart_count (self w') = restart_count (self w).
Proof.
  intros Hlive Hspawn. unfold start.
  rewrite (run_bind_finished _ _ _ _ _ _ (run_process_is_live env w)).
  rewrite Hlive. cbn. rewrite Hspawn. cbn. eexists. split; [reflexivity|].
  cbn. done.
Qed.

Lemma run_stop_idle (env : Env) (w : World) :
  has_live_process w = false ->
  run stop env w = (fst (exec_op (SetState stopped) w), Finished tt).
Proof.
  intros Hlive. unfold stop.
  rewrite (run_bind_finished _ _ _ _ _ _ (run_process_is_live env w)).
  by rewrite Hlive.
Qed.

Lemma run_stop_returns (env : Env) (w : World) :
  exists w1, run stop env w = (w1, Finished tt)
    /\ restart_count (self w1) = restart_count (self w).
Proof.
  destruct (has_live_process w) eqn:Hlive;
    [|rewrite run_stop_idle by done; eexists; split; [reflexivity | done]].
  unfold stop.
  rewrite (run_bind_finished _ _ _ _ _ _ (run_process_is_live env w)).
  rewrite Hlive. cbn [negb].
  unfold has_live_process in Hlive.
  destruct (process (self w)) as [h|] eqn:Hp; [|done].
  unfold on_process. cbn. rewrite Hp. cbn. rewrite Hp. cbn.
  match goal with |- context [proc_returncode ?w' h] =>
    destruct (proc_returncode w' h) eqn:Hrc end.
  - cbn. eexists. split; [reflexivity | done].
  - destruct (exit_in_time env) as [code|].
    + cbn. eexists. split; [reflexivity|].
      unfold child_exit. rewrite Hrc. done.
    + cbn. rewrite Hp. cbn. rewrite Hp. cbn.
      match goal with |- context [proc_returncode ?w' h] =>
        destruct (proc_returncode w' h) eqn:Hrc' end.
      * cbn. eexists. split; [reflexivity | done].
      * cbn. eexists. split; [reflexivity|].
        unfold child_exit. rewrite Hrc'. done.
Qed.

Lemma run_start_returns (env : Env) (w : World) :
  exists w2, run start env w = (w2, Finished tt)
    /\ restart_count (self w2) = restart_count (self w).
Proof.
  destruct (has_live_process w) eqn:Hlive.
  - rewrite run_start_live by done. eauto.
  - destruct (spawn_answer env) as [msg|p] eqn:Hspawn.
    + rewrite (run_start_failure env w msg) by done. eexists. split; [reflexivity | done].
    + destruct (run_start_success env w p Hlive Hspawn) as (w' & -> & _ & _ & _ & _ & Hc).
      eauto.
Qed.

Lemma run_restart (env : Env) (w : World) :
  exists w1, run stop env w = (w1, Finished tt)
    /\ restart_count (self w1) = restart_count (self w)
    /\ run restart env w = run start env (fst (exec_op IncrRestartCount w1)).
Proof.
  destruct (run_stop_returns env w) as (w1 & Hstop & Hcount).
  exists w1. split; [done|]. split; [done|].
  unfold restart. by rewrite (run_bind_finished _ _ _ _ _ _ Hstop).
Qed.

(** C6: whatever the supervisor's state, [restart()] is [stop()], then the
    counter goes up by one, then [start()], and it returns; the counter
    after it is the counter before plus 1; [start()] and [stop()] leave the
    counter alone; and no schedule of the event loop ever lowers it. *)
Theorem restart_increments_count (env : Env) (w : World) (evs : list event) :
  (exists w1, run stop env w = (w1, Finished tt)
     /\ run restart env w = run start env (fst (exec_op IncrRestartCount w1)))
  /\ snd (run restart env w) = Finished tt
  /\ restart_count (self (fst (run restart env w))) = (restart_count (self w) + 1)%Z
  /\ restart_count (self (fst (run start env w))) = restart_count (self w)
  /\ restart_count (self (fst (run stop env w))) = restart_count (self w)
  /\ (restart_count (self w) <= restart_count (self (exec evs w)))%Z.
Proof.
  destruct (run_restart env w) as (w1 & Hstop & Hcount & Hrestart).
  destruct (run_start_returns env (fst (exec_op IncrRestartCount w1)))
    as (w2 & Hstart & Hcount2).
  destruct (run_start_returns env w) as (w3 & Hstart3 & Hcount3).
  split; [eauto|].
  rewrite Hrestart, Hstart, Hstart3, Hstop. cbn [fst snd].
  split; [done|]. split; [|split; [done | split; [done|]]].
  - rewrite Hcount2. cbn. by rewrite Hcount.
  - apply restart_count_monotone_exec.
Qed.

Lemma get_status_after_spawn (w w' : World) (p : Z) :
  process (self w') = Some (length (procs w)) ->
  procs w' = (procs w ++ [{| pid := p; returncode := None; signals := [] |}])%list ->
  status_pid (get_status w') = Some p.
Proof.
  intros Hproc Hprocs. unfold get_status. cbn.
  rewrite Hproc, Hprocs. by rewrite list_lookup_middle.
Qed.

Lemma get_status_no_live_process (w : World) :
  has_live_process w = false -> status_pid (get_status w) = None.
Proof.
  unfold has_live_process, get_status, proc_returncode. cbn.
  destruct (process (self w)) as [h|]; [|done].
  destruct (procs w !! h) as [p|]; [|done].
  by destruct (returncode p).
Qed.

(** C8: when [start()] finds no live child and the spawn fails, the state
    becomes ["error"], the failure line is the newest line of the log,
    [get_status()] reports no pid, and the supervisor stays usable: a later
    [start()], or [restart()], whose spawn succeeds brings it to
    ["running"] with the new child's pid. *)
Theorem start_spawn_failure (env : Env) (w : World) (msg : string) :
  has_live_process w = false -> spawn_answer env = inl msg ->
  snd (run start env w) = Finished tt
  /\ state (self (fst (run start env w))) = error
  /\ last (logs (self (fst (run start env w))))
     = Some ("Failed to start gateway: " +:+ msg)
  /\ status_state (get_status (fst (run start env w))) = "error"
  /\ status_pid (get_status (fst (run start env w))) = None
  /\ (forall env2 p, spawn_answer env2 = inr p ->
        snd (run start env2 (fst (run start env w))) = Finished tt
        /\ state (self (fst (run start env2 (fst (run start env w))))) = running
        /\ status_pid (get_status (fst (run start env2 (fst (run start env w)))))
           = Some p)
  /\ (forall env2 p, spawn_answer env2 = inr p ->
        snd (run restart env2 (fst (run start env w))) = Finished tt
        /\ state (self (fst (run restart env2 (fst (run start env w))))) = running
        /\ status_pid (get_status (fst (run restart env2 (fst (run start env w)))))
           = Some p
        /\ restart_count (self (fst (run restart env2 (fst (run start env w)))))
           = (restart_count (self w) + 1)%Z).
Proof.
  intros Hlive Hspawn. rewrite (run_start_failure env w msg Hlive Hspawn).
  cbn [fst snd].
  set (w' := fst (exec_op (LogsAppend _) _)).
  assert (Hlive' : has_live_process w' = false) by exact Hlive.
  split; [done|]. split; [done|].
  split; [apply deque_append_last; unfold LOGS_MAXLEN; lia|].
  split; [done|]. split; [by apply get_status_no_live_process|]. split.
  - intros env2 p Hspawn2.
    destruct (run_start_success env2 w' p Hlive' Hspawn2)
      as (w'' & -> & Hstate & Hproc & Hprocs & _ & _).
    cbn [fst snd]. split; [done|]. split; [done|].
    by eapply get_status_after_spawn.
  - intros env2 p Hspawn2.
    destruct (run_restart env2 w') as (w1 & Hstop & _ & ->).
    rewrite run_stop_idle in Hstop by done. injection Hstop as <-.
    set (w2 := fst (exec_op IncrRestartCount _)).
    assert (Hlive2 : has_live_process w2 = false) by exact Hlive.
    destruct (run_start_success env2 w2 p Hlive2 Hspawn2)
      as (w'' & -> & Hstate & Hproc & Hprocs & _ & Hcount).
    cbn [fst snd]. split; [done|]. split; [done|].
    split; [by eapply get_status_after_spawn|].
    by rewrite Hcount.
Qed.

Lemma start_spawn_failure_witness :
  let env := {| spawn_answer := inl "[Errno 2] No such file or directory: 'picoclaw'";
                exit_in_time := None; exit_code := 0; next_line := None |} in
  let env2 := {| spawn_answer := inr 4242%Z;
                 exit_in_time := None; exit_code := 0; next_line := None |} in
  has_live_process World_init = false
  /\ state (self (fst (run start env World_init))) = error
  /\ api_logs (fst (run start env World_init))
     = ["Failed to start gateway: [Errno 2] No such file or directory: 'picoclaw'"]
  /\ status_pid (get_status (fst (run start env World_init))) = None
  /\ status_pid (get_status (fst (run restart env2 (fst (run start env World_init)))))
     = Some 4242%Z.
Proof.
  cbv zeta. split; [reflexivity|].
  destruct (start_spawn_failure
              {| spawn_answer := inl "[Errno 2] No such file or directory: 'picoclaw'";
                 exit_in_time := None; exit_code := 0; next_line := None |}
              World_init _ eq_refl eq_refl)
    as (_ & Hstate & _ & _ & Hpid & _ & Hrestart).
  split; [exact Hstate|]. split; [reflexivity|]. split; [exact Hpid|].
  destruct (Hrestart {| spawn_answer := inr 4242%Z; exit_in_time := None;
                        exit_code := 0; next_line := None |} 4242%Z eq_refl)
    as (_ & _ & Hpid' & _).
  exact Hpid'.
Defined.

(** ** The supervisor under the event loop *)

(** C9 fails on the code: nothing serializes the lifecycle methods.  Two
    [start()] tasks created while the supervisor is stopped both pass the
    guard before either has a process to record, and both spawn: two
    children run, and [self.process] names only the second.  Two [stop()]
    tasks on one running child both signal it, twice each.  Only calls
    that do not overlap behave as the guard intends: a second [start()] run
    after the first has finished is a no-op. *)
Theorem concurrent_lifecycle_calls_race :
  (let w := exec [Request OpStart; Request OpStart;
                  Resume 0 (spawns 101); Resume 1 (spawns 102);
                  Resume 0 (spawns 101); Resume 1 (spawns 102)] World_init in
   map pid (live_children w) = [101%Z; 102%Z]
   /\ process (self w) = Some 1
   /\ status_pid (get_status w) = Some 102%Z
   /\ state (self w) = running)
  /\ (let w := exec [Request OpStart; Resume 0 (spawns 101); Resume 0 (spawns 101);
                     Request OpStop; Request OpStop;
                     Resume 2 times_out; Resume 3 times_out;
                     Resume 2 times_out; Resume 3 times_out;
                     Resume 2 times_out; Resume 3 times_out] World_init in
      map signals (procs w) = [[SIGTERM; SIGTERM; SIGKILL; SIGKILL]])
  /\ (let w := fst (run start (spawns 102) (fst (run start (spawns 101) World_init))) in
      map pid (live_children w) = [101%Z]).
Proof. cbv zeta. repeat split; vm_compute; reflexivity. Qed.

(** ** The configuration handlers *)

Lemma MaskedValue_hidden (s : string) :
  endswith (MaskedValue s) "***" = true
  /\ (String.length (MaskedValue s) <= 11)%nat.
Proof.
  unfold MaskedValue. destruct (Nat.leb_spec (String.length s) 8) as [Hle|Hlt].
  - split; [done | cbn; lia].
  - split; [apply endswith_app|].
    rewrite string_length_app, substring_length_le by lia. cbn. lia.
Qed.

Lemma secrets_hidden_mask_document (data : json) :
  secrets_hidden (mask_document data) = true.
Proof.
  induction data as [| | | | |l IH|d IH] using json_ind; try done.
  - cbn [mask_document secrets_hidden]. rewrite forallb_forall.
    intros x (y & -> & Hy)%list_elem_of_In%list_elem_of_fmap.
    rewrite Forall_forall in IH. by apply IH.
  - cbn [mask_document secrets_hidden]. rewrite forallb_forall.
    intros x ([k v] & -> & Hkv)%list_elem_of_In%list_elem_of_fmap.
    rewrite Forall_forall in IH. specialize (IH _ Hkv).
    cbn [fst snd] in *. apply andb_true_iff.
    destruct v; try (split; [by destruct (bool_decide _) | done]).
    destruct (bool_decide (k ∈ SECRET_FIELDS)); cbn [andb]; [|done].
    destruct (decide (s = "")) as [->|Hne].
    + done.
    + rewrite (bool_decide_eq_false_2 _ Hne). cbn [negb].
      destruct (MaskedValue_hidden s) as [-> Hlen].
      split; [|done]. apply orb_true_iff. right.
      by apply Nat.leb_le.
Qed.

Lemma dict_remove_absent (k : string) (d : list (string * json)) :
  dict_lookup k d = None -> dict_remove k d = d.
Proof.
  induction d as [|[k' x] d IH]; cbn; [done|].
  destruct (String.eqb k' k); [done|]. intros H. by rewrite IH.
Qed.

Lemma dict_remove_elem_of (k : string) (d : list (string * json)) (kv : string * json) :
  kv ∈ dict_remove k d -> kv ∈ d.
Proof.
  induction d as [|[k' x] d IH]; cbn; [done|].
  destruct (String.eqb k' k).
  - intros H. apply elem_of_cons. by right.
  - intros [->|H]%elem_of_cons; apply elem_of_cons; [by left | right; auto].
Qed.

Lemma dict_remove_lookup (k : string) (d : list (string * json)) :
  NoDup (keys d) -> dict_lookup k (dict_remove k d) = None.
Proof.
  induction d as [|[k' x] d IH]; cbn [keys map fst dict_remove]; [done|].
  intros [Hnotin Hnd]%NoDup_cons.
  destruct (String.eqb_spec k' k) as [->|Hne].
  - by apply dict_lookup_None.
  - cbn. destruct (String.eqb_spec k' k); [done | by apply IH].
Qed.

Lemma unique_keys_dict_remove (k : string) (d : list (string * json)) :
  unique_keys (JDict d) = true -> unique_keys (JDict (dict_remove k d)) = true.
Proof.
  rewrite !unique_keys_dict. intros [Hnd Hu]. split.
  - clear Hu. induction d as [|[k' x] d IH]; cbn [keys map fst dict_remove] in *;
      [done|].
    apply NoDup_cons in Hnd as [Hnotin Hnd].
    destruct (String.eqb k' k); [done|].
    cbn [map fst]. apply NoDup_cons. split; [|by apply IH].
    intros ([k'' y] & Heq & Hin%dict_remove_elem_of)%list_elem_of_fmap.
    cbn in Heq. subst k''. apply Hnotin.
    apply (list_elem_of_fmap_2 fst _ _ Hin).
  - rewrite Forall_forall in *. intros kv Hin%dict_remove_elem_of. by apply Hu.
Qed.

(** A document merged into itself is unchanged. *)
Lemma merge_secrets_self (D : json) :
  unique_keys D = true -> merge_secrets D D = D.
Proof.
  induction D as [| | | | |l _|d IH] using json_ind; intros Hu; try done.
  apply unique_keys_dict in Hu as [Hnd Hu].
  rewrite merge_secrets_dict by done. f_equal.
  transitivity (map id d); [|apply map_id]. apply map_ext_Forall.
  rewrite Forall_forall in *. intros [k v] Hin. unfold id. cbn [fst snd]. f_equal.
  assert (Hk : dict_lookup k d = Some v) by (by apply dict_lookup_of_elem).
  unfold merge_entry, dict_get. rewrite Hk. cbn [from_option]. unfold id.
  destruct (secret_placeholder k v); [done|].
  apply (IH _ Hin). exact (Hu _ Hin).
Qed.

(** Merging the same incoming document a second time changes nothing. *)
Lemma merge_secrets_again (D : json) :
  forall E, unique_keys D = true ->
    merge_secrets D (merge_secrets D E) = merge_secrets D E.
Proof.
  induction D as [| | | | |l _|d IH] using json_ind; intros E Hu; try done.
  destruct (is_dict E) eqn:HE;
    [|rewrite (merge_secrets_not_dict_r _ E) by done; by apply merge_secrets_self].
  destruct E as [| | | | | |e]; try done.
  apply unique_keys_dict in Hu as [Hnd Hu].
  rewrite (merge_secrets_dict d e) by done.
  rewrite merge_secrets_dict by done. f_equal.
  apply map_ext_Forall. rewrite Forall_forall in *.
  intros [k v] Hin. cbn [fst snd]. f_equal.
  assert (Hk : dict_lookup k d = Some v) by (by apply dict_lookup_of_elem).
  unfold merge_entry at 1. unfold dict_get.
  rewrite dict_lookup_map, Hk. cbn [fmap option_fmap option_map from_option].
  unfold id. destruct (secret_placeholder k v) eqn:Hs.
  - done.
  - unfold merge_entry. rewrite Hs.
    apply (IH _ Hin). exact (Hu _ Hin).
Qed.

(** X1: what [GET /api/config] returns never shows a secret string: in the
    response every string stored directly under a secret key, at any
    depth and also inside lists, is empty or is at most 8 characters
    followed by ["***"]. *)
Theorem api_config_get_hides_secrets (sys : System) :
  unique_keys (load_config (config_file sys)) = true ->
  exists content,
    api_config_get true sys = JSONResponse content 200
    /\ secrets_hidden content = true.
Proof.
  intros Hu. eexists. split; [reflexivity|].
  rewrite mask_secrets_refines by done. apply secrets_hidden_mask_document.
Qed.

Lemma api_config_get_hides_secrets_witness :
  unique_keys (load_config (config_file (System_with stored_model_list))) = true
  /\ exists content,
       api_config_get true (System_with stored_model_list) = JSONResponse content 200
       /\ secrets_hidden content = true.
Proof.
  split; [reflexivity|].
  apply (api_config_get_hides_secrets (System_with stored_model_list)). reflexivity.
Defined.

(** X2: a write is idempotent.  Merging the same incoming document again
    into the result of the merge gives that result, so a second identical
    [PUT /api/config] leaves the configuration file as the first one left
    it. *)
Theorem api_config_put_idempotent (d : list (string * json)) (E : json) (sys : System) :
  unique_keys (JDict d) = true ->
  merge_secrets (JDict d) (merge_secrets (JDict d) E) = merge_secrets (JDict d) E
  /\ config_file
       (fst (api_config_put true (Some (JDict d))
               (fst (api_config_put true (Some (JDict d)) sys))))
     = config_file (fst (api_config_put true (Some (JDict d)) sys)).
Proof.
  intros Hu. split; [by apply merge_secrets_again|].
  unfold api_config_put. cbn [require_auth negb dict_pop].
  destruct (truthy (dict_get d "_restartGateway" (JBool false)));
    cbn [fst config_file set_config_file create_task save_config load_config];
    f_equal; apply merge_secrets_again; by apply unique_keys_dict_remove.
Qed.

Lemma api_config_put_idempotent_witness :
  let d := [("providers", JDict [("anthropic", JDict [("api_key", JStr "***")])]);
            ("_restartGateway", JBool true)] in
  unique_keys (JDict d) = true
  /\ config_file
       (fst (api_config_put true (Some (JDict d))
               (fst (api_config_put true (Some (JDict d)) (System_with stored_example)))))
     = config_file (fst (api_config_put true (Some (JDict d)) (System_with stored_example))).
Proof.
  cbv zeta. split; [reflexivity|].
  apply (api_config_put_idempotent _ JNull (System_with stored_example)). reflexivity.
Defined.

(** X3: a write whose body is valid JSON but not an object is answered
    with status 500, and neither the configuration file nor the supervisor
    changes. *)
Theorem api_config_put_rejects_non_dict (body : json) (sys : System) :
  is_dict body = false ->
  exists content,
    api_config_put true (Some body) sys = (sys, JSONResponse content 500).
Proof. intros Hb. destruct body; try done; eexists; reflexivity. Qed.

Lemma api_config_put_rejects_non_dict_witness :
  is_dict (JList [JStr "api_key"]) = false
  /\ exists content,
       api_config_put true (Some (JList [JStr "api_key"])) (System_with stored_example)
       = (System_with stored_example, JSONResponse content 500).
Proof.
  split; [reflexivity|].
  apply (api_config_put_rejects_non_dict _ (System_with stored_example)). reflexivity.
Defined.

(** X4: reading the configuration and writing back what was read changes
    nothing.  When the stored document is an object with no
    ["_restartGateway"] key in which no list holds a dict, the body of
    [GET /api/config] sent to [PUT /api/config] is accepted, leaves the
    stored document and the event loop as they were, and schedules no
    restart. *)
Theorem api_config_get_put_roundtrip (sys : System) (d : list (string * json))
    (content : json) :
  load_config (config_file sys) = JDict d ->
  unique_keys (JDict d) = true -> lists_dict_free (JDict d) = true ->
  dict_lookup "_restartGateway" d = None ->
  api_config_get true sys = JSONResponse content 200 ->
  load_config (config_file (fst (api_config_put true (Some content) sys)))
  = load_config (config_file sys)
  /\ loop (fst (api_config_put true (Some content) sys)) = loop sys
  /\ snd (api_config_put true (Some content) sys)
     = JSONResponse (JDict [("ok", JBool true); ("restarting", JBool false)]) 200.
Proof.
  intros Hload Hu Hl Hflag Hget.
  unfold api_config_get in Hget. cbn [require_auth negb] in Hget.
  injection Hget as <-. rewrite Hload.
  rewrite mask_secrets_refines by done.
  pose proof (merge_mask_roundtrip (JDict d) Hu Hl) as Hround.
  cbn [mask_document] in *.
  set (d' := map _ d) in *.
  assert (Hflag' : dict_lookup "_restartGateway" d' = None).
  { apply dict_lookup_None. apply dict_lookup_None in Hflag.
    subst d'. unfold keys in *. by rewrite map_map. }
  unfold api_config_put. cbn [require_auth negb dict_pop].
  unfold dict_get. rewrite Hflag'. cbn [from_option truthy].
  rewrite dict_remove_absent by done. rewrite Hload, Hround. done.
Qed.

Lemma api_config_get_put_roundtrip_witness :
  exists d content,
    load_config (config_file (System_with stored_example)) = JDict d
    /\ unique_keys (JDict d) = true /\ lists_dict_free (JDict d) = true
    /\ dict_lookup "_restartGateway" d = None
    /\ api_config_get true (System_with stored_example) = JSONResponse content 200
    /\ lookup_path ["providers"; "anthropic"; "api_key"] content
       = Some (JStr "sk-real-***")
    /\ load_config
         (config_file (fst (api_config_put true (Some content)
                              (System_with stored_example))))
       = stored_example.
Proof.
  eexists _, _. split; [reflexivity|]. split; [reflexivity|].
  split; [reflexivity|]. split; [reflexivity|]. split; [reflexivity|].
  split; [reflexivity|].
  exact (proj1 (api_config_get_put_roundtrip (System_with stored_example) _ _
                  eq_refl eq_refl eq_refl eq_refl eq_refl)).
Defined.

(** X5: the restart flag is never stored.  After an accepted write the
    stored document has no top-level ["_restartGateway"] key; one
    [restart()] task is created when the flag is truthy and none otherwise;
    the supervisor record itself is not touched by the handler. *)
Theorem api_config_put_restart_flag (d : list (string * json)) (sys : System) :
  unique_keys (JDict d) = true ->
  lookup_path ["_restartGateway"]
    (load_config (config_file (fst (api_config_put true (Some (JDict d)) sys))))
  = None
  /\ tasks (loop (fst (api_config_put true (Some (JDict d)) sys)))
     = (tasks (loop sys)
        ++ (if truthy (dict_get d "_restartGateway" (JBool false))
            then [Ready restart] else []))%list
  /\ self (loop (fst (api_config_put true (Some (JDict d)) sys))) = self (loop sys)
  /\ procs (loop (fst (api_config_put true (Some (JDict d)) sys))) = procs (loop sys).
Proof.
  intros Hu. unfold api_config_put. cbn [require_auth negb dict_pop].
  assert (Hu' := unique_keys_dict_remove "_restartGateway" d Hu).
  assert (Hgone : dict_lookup "_restartGateway" (dict_remove "_restartGateway" d) = None).
  { apply dict_remove_lookup. by apply unique_keys_dict in Hu as [? _]. }
  assert (Hstored :
    lookup_path ["_restartGateway"]
      (merge_secrets (JDict (dict_remove "_restartGateway" d))
         (load_config (config_file sys))) = None).
  { destruct (merge_keeps_incoming_keys [] _ (load_config (config_file sys)) _ Hu' eq_refl)
      as (r & Hr & Hkeys).
    apply (f_equal (default JNull)) in Hr. cbn [lookup_path from_option] in Hr.
    unfold id in Hr. rewrite Hr. cbn [lookup_path].
    assert (Hnone : dict_lookup "_restartGateway" r = None).
    { apply dict_lookup_None. rewrite Hkeys. by apply dict_lookup_None. }
    by rewrite Hnone. }
  destruct (truthy (dict_get d "_restartGateway" (JBool false)));
    cbn [fst config_file set_config_file create_task save_config load_config
         loop step set_tasks tasks self procs method];
    rewrite ?app_nil_r; done.
Qed.

Lemma api_config_put_restart_flag_witness :
  let d := [("gateway", JDict [("port", JInt 18790)]); ("_restartGateway", JBool true)] in
  unique_keys (JDict d) = true
  /\ load_config (config_file (fst (api_config_put true (Some (JDict d)) System_init)))
     = JDict [("gateway", JDict [("port", JInt 18790)])]
  /\ tasks (loop (fst (api_config_put true (Some (JDict d)) System_init)))
     = [Ready restart].
Proof.
  cbv zeta. split; [reflexivity|]. split; [reflexivity|].
  exact (proj1 (proj2 (api_config_put_restart_flag
                         [("gateway", JDict [("port", JInt 18790)]);
                          ("_restartGateway", JBool true)]
                         System_init eq_refl))).
Defined.

(** X6: without credentials nothing is read and nothing changes: every
    handler except [/health] answers 401 and leaves the configuration file,
    the supervisor and the event loop as they were. *)
Theorem unauthenticated_requests_are_refused
    (sys : System) (request_json : option json) (op : lifecycle) :
  exists denied,
    require_auth false = Some denied
    /\ denied = PlainTextResponse "Unauthorized" 401
                  [("WWW-Authenticate",
                    "Basic realm=" +:+ double_quote +:+ "picoclaw" +:+ double_quote)]
    /\ homepage false = denied
    /\ api_config_get false sys = denied
    /\ api_config_put false request_json sys = (sys, denied)
    /\ api_status false sys = Returns denied
    /\ api_logs_handler false sys = denied
    /\ api_gateway op false sys = (sys, denied).
Proof. eexists. repeat split; reflexivity. Qed.

(** ** Status and auto-start *)

Lemma providers_summary_none (providers : list (string * json)) :
  fold_left
    (fun result kv =>
       match result, as_dict (snd kv) with
       | Some result, Some prov =>
           Some (dict_set (fst kv)
                   (JDict [("configured",
                            JBool (truthy (dict_get prov "api_key" JNull)))])
                   result)
       | _, _ => None
       end)
    providers None = None.
Proof. induction providers as [|kv ps IH]; [done | exact IH]. Qed.

Lemma providers_summary_fold (providers : list (string * json)) :
  forall acc r,
    NoDup (keys acc ++ keys providers) ->
    fold_left
      (fun result kv =>
         match result, as_dict (snd kv) with
         | Some result, Some prov =>
             Some (dict_set (fst kv)
                     (JDict [("configured",
                              JBool (truthy (dict_get prov "api_key" JNull)))])
                     result)
         | _, _ => None
         end)
      providers (Some acc) = Some r ->
    r = (acc ++ map (fun kv => (fst kv,
                                JDict [("configured",
                                        JBool (provider_configured (snd kv)))]))
                  providers)%list
    /\ Forall (fun kv => is_dict (snd kv) = true) providers.
Proof.
  induction providers as [|[k v] ps IH]; intros acc r Hnd; cbn [fold_left].
  - intros [= ->]. by rewrite app_nil_r.
  - assert (Hfresh : k ∉ keys acc).
    { apply NoDup_app in Hnd as (_ & Hdisj & _).
      intros Hin. apply (Hdisj k Hin). cbn. apply elem_of_cons; by left. }
    destruct v as [| | | | | |p]; cbn [as_dict snd fst];
      try (rewrite providers_summary_none; discriminate).
    rewrite dict_set_fresh by done.
    intros Hfold. apply IH in Hfold as [-> Hdict].
    + rewrite <- app_assoc. split; [done|]. by apply Forall_cons.
    + unfold keys in *. rewrite map_app, <- app_assoc. exact Hnd.
Qed.

Lemma providers_summary_fails (providers : list (string * json)) :
  forall acc,
    Exists (fun kv => is_dict (snd kv) = false) providers ->
    fold_left
      (fun result kv =>
         match result, as_dict (snd kv) with
         | Some result, Some prov =>
             Some (dict_set (fst kv)
                     (JDict [("configured",
                              JBool (truthy (dict_get prov "api_key" JNull)))])
                     result)
         | _, _ => None
         end)
      providers acc = None.
Proof.
  induction providers as [|[k v] ps IH]; intros acc Hex; cbn [fold_left].
  - by apply Exists_nil in Hex.
  - apply Exists_cons in Hex as [Hv|Hex]; [|by apply IH].
    cbn [snd] in Hv.
    destruct v; try done; destruct acc; cbn [as_dict snd];
      apply providers_summary_none.
Qed.

Lemma existsb_provider_configured (providers : list (string * json)) :
  existsb (fun kv =>
             match snd kv with
             | JDict prov => truthy (dict_get prov "api_key" JNull)
             | _ => false
             end) providers = true
  <-> exists name prov, (name, prov) ∈ providers /\ provider_configured prov = true.
Proof.
  rewrite existsb_exists. split.
  - intros ([name prov] & Hin%list_elem_of_In & Hc). exists name, prov. split; [done|].
    by destruct prov.
  - intros (name & prov & Hin%list_elem_of_In & Hc). exists (name, prov).
    split; [done|]. by destruct prov.
Qed.

Lemma unique_keys_dict_get (d : list (string * json)) (k : string) :
  unique_keys (JDict d) = true -> unique_keys (dict_get d k (JDict [])) = true.
Proof.
  intros Hu. unfold dict_get. destruct (dict_lookup k d) as [x|] eqn:Hk; [|done].
  by eapply unique_keys_lookup.
Qed.

(** What [api_status] needs to return, and what it then returns. *)
Lemma api_status_returns (sys : System) (content : json) :
  unique_keys (load_config (config_file sys)) = true ->
  api_status true sys = Returns (JSONResponse content 200) ->
  exists config provs gateway rest,
    load_config (config_file sys) = JDict config
    /\ dict_get config "providers" (JDict []) = JDict provs
    /\ NoDup (keys provs)
    /\ Forall (fun kv => is_dict (snd kv) = true) provs
    /\ content
       = JDict (("gateway", gateway)
                :: ("providers",
                    JDict (map (fun kv =>
                                  (fst kv,
                                   JDict [("configured",
                                           JBool (provider_configured (snd kv)))]))
                             provs))
                :: rest).
Proof.
  intros Hu. unfold api_status. cbn [require_auth negb].
  destruct (load_config (config_file sys)) as [| | | | | |config]; try done.
  cbn [as_dict].
  pose proof (unique_keys_dict_get config "providers" Hu) as Hup.
  destruct (dict_get config "providers" (JDict [])) as [| | | | | |provs] eqn:Hprovs;
    try done.
  cbn [as_dict]. apply unique_keys_dict in Hup as [Hnd _].
  destruct (providers_summary provs) as [providers|] eqn:Hsum; [|done].
  apply providers_summary_fold in Hsum as [-> Hdict]; [|done].
  destruct (as_dict (dict_get config "channels" (JDict []))) as [chans|]; [|done].
  destruct (channels_summary chans) as [channels|]; [|done].
  intros [= <-]. eexists _, _, _, _. repeat split; try done.
Qed.

(** X7: the status page and the auto-start agree.  When [GET /api/status]
    returns, it reports each provider as configured exactly when its
    [api_key] is truthy, and [auto_start_gateway] creates the [start()] task
    exactly when some provider is reported as configured. *)
Theorem auto_start_agrees_with_status (sys : System) (content : json) :
  unique_keys (load_config (config_file sys)) = true ->
  api_status true sys = Returns (JSONResponse content 200) ->
  (forall name prov,
     lookup_path ["providers"; name] (load_config (config_file sys)) = Some prov ->
     lookup_path ["providers"; name; "configured"] content
     = Some (JBool (provider_configured prov)))
  /\ ((exists name,
         lookup_path ["providers"; name; "configured"] content = Some (JBool true)) ->
      auto_start_gateway sys = Some (create_task OpStart sys))
  /\ ((forall name,
         lookup_path ["providers"; name; "configured"] content <> Some (JBool true)) ->
      auto_start_gateway sys = Some sys).
Proof.
  intros Hu Hstatus.
  destruct (api_status_returns sys content Hu Hstatus)
    as (config & provs & gateway & rest & Hconfig & Hprovs & Hnd & Hdict & ->).
  assert (Hreport : forall name,
    lookup_path ["providers"; name; "configured"]
      (JDict (("gateway", gateway)
              :: ("providers",
                  JDict (map (fun kv =>
                                (fst kv,
                                 JDict [("configured",
                                         JBool (provider_configured (snd kv)))]))
                           provs))
              :: rest))
    = (fun prov => JBool (provider_configured prov)) <$> dict_lookup name provs).
  { intros name. cbn [lookup_path dict_lookup String.eqb Ascii.eqb Bool.eqb].
    rewrite (dict_lookup_map
               (fun _ v => JDict [("configured", JBool (provider_configured v))])).
    by destruct (dict_lookup name provs). }
  assert (Hauto : auto_start_gateway sys
    = Some (if existsb (fun kv =>
                          match snd kv with
                          | JDict prov => truthy (dict_get prov "api_key" JNull)
                          | _ => false
                          end) provs
            then create_task OpStart sys else sys)).
  { unfold auto_start_gateway. rewrite Hconfig. cbn [as_dict]. by rewrite Hprovs. }
  split; [|split].
  - intros name prov Hlook. rewrite Hreport. rewrite Hconfig in Hlook.
    cbn [lookup_path] in Hlook. unfold dict_get in Hprovs.
    destruct (dict_lookup "providers" config) as [x|]; [|done].
    cbn [from_option] in Hprovs. unfold id in Hprovs. subst x.
    cbn [lookup_path] in Hlook.
    destruct (dict_lookup name provs) as [y|]; [|done].
    by injection Hlook as ->.
  - intros [name Hname]. rewrite Hreport in Hname.
    destruct (dict_lookup name provs) as [prov|] eqn:Hk; [|done].
    injection Hname as Hc. rewrite Hauto.
    replace (existsb _ provs) with true; [done|]. symmetry.
    apply existsb_provider_configured. exists name, prov.
    split; [by apply dict_lookup_elem_of | done].
  - intros Hnone. rewrite Hauto.
    destruct (existsb _ provs) eqn:Hex; [|done].
    apply existsb_provider_configured in Hex as (name & prov & Hin & Hc).
    exfalso. apply (Hnone name). rewrite Hreport.
    rewrite (dict_lookup_of_elem provs name prov Hnd Hin). cbn. by rewrite Hc.
Qed.

Lemma auto_start_agrees_with_status_witness :
  exists content,
    unique_keys (load_config (config_file (System_with stored_two_providers))) = true
    /\ api_status true (System_with stored_two_providers)
       = Returns (JSONResponse content 200)
    /\ lookup_path ["providers"; "anthropic"; "configured"] content = Some (JBool true)
    /\ lookup_path ["providers"; "openai"; "configured"] content = Some (JBool false)
    /\ auto_start_gateway (System_with stored_two_providers)
       = Some (create_task OpStart (System_with stored_two_providers)).
Proof.
  eexists. split; [reflexivity|]. split; [reflexivity|].
  split; [reflexivity|]. split; [reflexivity|].
  refine (proj1 (proj2 (auto_start_agrees_with_status
                          (System_with stored_two_providers) _ eq_refl eq_refl)) _).
  exists "anthropic". reflexivity.
Defined.

(** X8: a provider entry that is not an object breaks the status page but
    not the auto-start: [GET /api/status] ends in an unhandled
    [AttributeError], while [auto_start_gateway] skips the entry. *)
Theorem api_status_fails_on_non_dict_provider
    (sys : System) (config provs : list (string * json)) (name : string) (v : json) :
  load_config (config_file sys) = JDict config ->
  dict_lookup "providers" config = Some (JDict provs) ->
  (name, v) ∈ provs -> is_dict v = false ->
  api_status true sys = Raises "AttributeError"
  /\ auto_start_gateway sys
     = Some (if existsb (fun kv => provider_configured (snd kv)) provs
             then create_task OpStart sys else sys).
Proof.
  intros Hconfig Hprovs Hin Hv. split.
  - unfold api_status. cbn [require_auth negb]. rewrite Hconfig. cbn [as_dict].
    unfold dict_get at 1. rewrite Hprovs. cbn [from_option]. unfold id. cbn [as_dict].
    unfold providers_summary. rewrite providers_summary_fails; [done|].
    apply Exists_exists. by exists (name, v).
  - unfold auto_start_gateway. rewrite Hconfig. cbn [as_dict].
    unfold dict_get at 1. rewrite Hprovs. cbn [from_option]. unfold id. cbn [as_dict].
    do 2 f_equal.
Qed.

Lemma api_status_fails_on_non_dict_provider_witness :
  api_status true (System_with stored_null_provider) = Raises "AttributeError"
  /\ auto_start_gateway (System_with stored_null_provider)
     = Some (System_with stored_null_provider).
Proof.
  assert (Hin : ("anthropic", JNull) ∈ [("anthropic", JNull)])
    by (apply list_elem_of_singleton; reflexivity).
  exact (api_status_fails_on_non_dict_provider
           (System_with stored_null_provider) _ [("anthropic", JNull)]
           "anthropic" JNull eq_refl eq_refl Hin eq_refl).
Defined.

(** ** Authentication *)

Lemma partition_spec (s : string) :
  has_colon (fst (fst (partition s))) = false
  /\ ((snd (fst (partition s)) = ":"
       /\ s = fst (fst (partition s)) +:+ ":" +:+ snd (partition s))
      \/ (snd (fst (partition s)) = "" /\ snd (partition s) = ""
          /\ s = fst (fst (partition s)))).
Proof.
  induction s as [|c s IH]; cbn [partition].
  - split; [done | right; done].
  - destruct (Ascii.eqb c colon) eqn:Hc.
    + apply Ascii.eqb_eq in Hc as ->. split; [done | left; done].
    + destruct (partition s) as [[head sep] tail]. cbn [fst snd] in *.
      destruct IH as [Hhead Hcases]. split; [cbn; by rewrite Hc|].
      destruct Hcases as [[-> ->]|(-> & -> & ->)]; [left | right]; done.
Qed.

Lemma partition_found (head tail : string) :
  has_colon head = false ->
  partition (head +:+ ":" +:+ tail) = (head, ":", tail).
Proof.
  induction head as [|c head IH]; [done|].
  cbn [has_colon]. intros [Hc Hhead]%orb_false_iff.
  change (String c head +:+ ":" +:+ tail) with (String c (head +:+ ":" +:+ tail)).
  cbn [partition]. by rewrite Hc, IH.
Qed.

(** X9: the credentials are accepted exactly when the header has two
    whitespace-separated fields, the first reads [basic] in any letter case,
    and the second decodes to the user name, a colon and the password; the
    user name is cut at the first colon, so when [ADMIN_USERNAME] itself
    holds a colon no credentials are ever accepted. *)
Theorem authenticate_accepts_iff
    (ADMIN_USERNAME ADMIN_PASSWORD : string)
    (b64decode_ascii : string -> option string) (auth : string) :
  ADMIN_PASSWORD <> "" ->
  (authenticate ADMIN_USERNAME ADMIN_PASSWORD b64decode_ascii (Some auth)
   = Authenticated ["authenticated"] ADMIN_USERNAME
   <-> (exists scheme credentials,
          split auth = [scheme; credentials]
          /\ lower scheme = "basic"
          /\ b64decode_ascii credentials
             = Some (ADMIN_USERNAME +:+ ":" +:+ ADMIN_PASSWORD)
          /\ has_colon ADMIN_USERNAME = false))
  /\ (forall scopes user,
        authenticate ADMIN_USERNAME ADMIN_PASSWORD b64decode_ascii (Some auth)
        = Authenticated scopes user ->
        scopes = ["authenticated"] /\ user = ADMIN_USERNAME).
Proof.
  intros Hpw. unfold authenticate.
  destruct (split auth) as [|scheme [|credentials [|? ?]]];
    try (split; [split; [done | by intros (? & ? & ? & _)] | done]).
  destruct (String.eqb_spec (lower scheme) "basic") as [Hscheme|Hscheme]; cbn [negb];
    [|split; [split; [done|] | done];
      intros (? & ? & [= <- <-] & ? & _); done].
  destruct (b64decode_ascii credentials) as [decoded|] eqn:Hdec;
    [|split; [split; [done|] | done];
      intros (? & ? & [= <- <-] & _ & Hd & _); congruence].
  pose proof (partition_spec decoded) as [Hhead Hcases].
  destruct (partition decoded) as [[username sep] password] eqn:Hpart.
  cbn [fst snd] in *. split; [split|].
  - destruct (String.eqb_spec username ADMIN_USERNAME) as [->|Hu]; cbn [andb];
      [|done].
    destruct (String.eqb_spec password ADMIN_PASSWORD) as [->|Hp]; [|done].
    intros _. exists scheme, credentials. repeat split; try done.
    destruct Hcases as [[-> ->]|(_ & -> & _)]; done.
  - intros (? & ? & [= <- <-] & _ & Hd & Hcolon).
    rewrite Hdec in Hd. injection Hd as ->.
    rewrite (partition_found _ _ Hcolon) in Hpart. injection Hpart as <- <- <-.
    by rewrite !String.eqb_refl.
  - intros scopes user.
    destruct (String.eqb_spec username ADMIN_USERNAME) as [->|Hu]; cbn [andb];
      [|done].
    destruct (String.eqb password ADMIN_PASSWORD); [|done].
    by intros [= <- <-].
Qed.

Lemma authenticate_accepts_iff_witness :
  "s3cret" <> ""
  /\ authenticate "admin" "s3cret" (decode_only "YWRtaW46czNjcmV0" "admin:s3cret")
       (Some "BASIC  YWRtaW46czNjcmV0")
     = Authenticated ["authenticated"] "admin".
Proof.
  assert (Hpw : "s3cret" <> "") by discriminate.
  split; [exact Hpw|].
  apply (proj1 (authenticate_accepts_iff "admin" "s3cret"
                  (decode_only "YWRtaW46czNjcmV0" "admin:s3cret")
                  "BASIC  YWRtaW46czNjcmV0" Hpw)).
  exists "BASIC", "YWRtaW46czNjcmV0". repeat split; reflexivity.
Defined.

(** ** Lifecycle calls that do not overlap *)

Lemma has_live_process_lookup (w : World) :
  valid_handle w = true -> has_live_process w = true ->
  exists h p, process (self w) = Some h /\ procs w !! h = Some p
              /\ returncode p = None.
Proof.
  unfold valid_handle, has_live_process, proc_returncode.
  destruct (process (self w)) as [h|]; [|done].
  intros Hh%Nat.ltb_lt Hlive%bool_decide_eq_true.
  destruct (procs w !! h) as [p|] eqn:Hp.
  - by exists h, p.
  - apply lookup_ge_None in Hp. lia.
Qed.

(** [stop()] on a live child, step by step. *)
Lemma run_stop_live (env : Env) (w : World) (h : nat) (p : Process) :
  process (self w) = Some h -> procs w !! h = Some p -> returncode p = None ->
  run stop env w
  = ({| self := {| process := Some h; state := stopped; logs := logs (self w);
                   start_time := None; restart_count := restart_count (self w);
                   _read_tasks := _read_tasks (self w) |};
        procs := <[h := stopped_child env p]> (procs w);
        clock := clock w; tasks := tasks w |},
     Finished tt).
Proof.
  intros Hproc Hp Hrc.
  assert (Hlive : has_live_process w = true).
  { unfold has_live_process, proc_returncode. rewrite Hproc, Hp, Hrc.
    by apply bool_decide_eq_true. }
  assert (Hlt : h < length (procs w)) by (by eapply lookup_lt_Some).
  unfold stop.
  rewrite (run_bind_finished _ _ _ _ _ _ (run_process_is_live env w)).
  rewrite Hlive. cbn [negb].
  unfold on_process. cbn. rewrite Hproc. cbn. rewrite Hproc. cbn.
  unfold proc_returncode at 1. cbn [procs set_procs set_self].
  rewrite list_lookup_alter_eq, Hp. cbn [fmap option_fmap option_map send_signal returncode].
  rewrite Hrc. unfold stopped_child, stop_signals, stop_exit_code.
  destruct (exit_in_time env) as [code|].
  - cbn. unfold child_exit, proc_returncode. cbn [procs set_procs set_self].
    rewrite list_lookup_alter_eq, Hp. cbn. rewrite Hrc. cbn.
    unfold set_procs, set_self. cbn. rewrite Hproc. do 2 f_equal.
    apply list_eq. intros i. destruct (decide (i = h)) as [->|Hne].
    + rewrite !list_lookup_alter_eq, list_lookup_insert_eq by done. by rewrite Hp.
    + by rewrite !list_lookup_alter_ne, list_lookup_insert_ne.
  - cbn. rewrite Hproc. cbn. rewrite Hproc. cbn.
    unfold proc_returncode at 1. cbn [procs set_procs set_self].
    rewrite !list_lookup_alter_eq, Hp. cbn. rewrite Hrc.
    unfold child_exit, proc_returncode. cbn [procs set_procs set_self].
    rewrite !list_lookup_alter_eq, Hp. cbn. rewrite Hrc. cbn.
    unfold set_procs, set_self. cbn. rewrite Hproc. do 2 f_equal.
    apply list_eq. intros i. destruct (decide (i = h)) as [->|Hne].
    + rewrite !list_lookup_alter_eq, list_lookup_insert_eq by done. rewrite Hp. cbn.
      unfold set_returncode, send_signal. cbn. by rewrite <- app_assoc.
    + by rewrite !list_lookup_alter_ne, list_lookup_insert_ne.
Qed.

(** X10: [stop()] always ends with no live child recorded.  From any
    world whose recorded child is in the process table it returns with
    state ["stopped"]; [get_status()] then reports neither pid nor uptime;
    a child that was live has been sent SIGTERM, and SIGKILL only when it
    did not exit in time, and has exited, and the start time is cleared;
    without a live child nothing but the state changes; and calling
    [stop()] again changes nothing at all. *)
Theorem stop_leaves_no_live_child (env env2 : Env) (w : World) :
  valid_handle w = true ->
  snd (run stop env w) = Finished tt
  /\ state (self (fst (run stop env w))) = stopped
  /\ has_live_process (fst (run stop env w)) = false
  /\ status_pid (get_status (fst (run stop env w))) = None
  /\ status_uptime (get_status (fst (run stop env w))) = None
  /\ (forall h p, process (self w) = Some h -> procs w !! h = Some p ->
        returncode p = None ->
        procs (fst (run stop env w)) = <[h := stopped_child env p]> (procs w)
        /\ start_time (self (fst (run stop env w))) = None)
  /\ (has_live_process w = false ->
      procs (fst (run stop env w)) = procs w
      /\ start_time (self (fst (run stop env w))) = start_time (self w))
  /\ run stop env2 (fst (run stop env w)) = (fst (run stop env w), Finished tt).
Proof.
  intros Hvalid. destruct (has_live_process w) eqn:Hlive.
  - destruct (has_live_process_lookup w Hvalid Hlive) as (h & p & Hproc & Hp & Hrc).
    rewrite (run_stop_live env w h p Hproc Hp Hrc). cbn [fst snd].
    assert (Hlt : h < length (procs w)) by (by eapply lookup_lt_Some).
    set (w' := {| self := _; procs := _; clock := _; tasks := _ |}).
    assert (Hdead : has_live_process w' = false).
    { unfold has_live_process, proc_returncode. cbn.
      rewrite list_lookup_insert_eq by done. done. }
    split; [done|]. split; [done|]. split; [done|].
    split; [by apply get_status_no_live_process|]. split; [done|].
    split; [|split; [done|]].
    + intros h0 p0 Hproc0 Hp0 _. rewrite Hproc in Hproc0. injection Hproc0 as <-.
      rewrite Hp in Hp0. injection Hp0 as <-. done.
    + by rewrite run_stop_idle.
  - rewrite run_stop_idle by done. cbn [fst snd].
    split; [done|]. split; [done|]. split; [exact Hlive|].
    split; [by apply get_status_no_live_process|].
    split.
    { unfold get_status.
      cbn [status_uptime self exec_op set_self fst state start_time].
      destruct (start_time (self w)); [|done].
      cbn [GatewayState_eqb]. by rewrite andb_false_r. }
    split; [|split; [done|]].
    + intros h p Hproc Hp Hrc. exfalso.
      unfold has_live_process, proc_returncode in Hlive.
      rewrite Hproc, Hp, Hrc in Hlive. by apply bool_decide_eq_false in Hlive.
    + by rewrite run_stop_idle.
Qed.

Lemma stop_leaves_no_live_child_witness :
  let w := fst (run start (spawns 4242) World_init) in
  valid_handle w = true
  /\ has_live_process w = true
  /\ state (self (fst (run stop times_out w))) = stopped
  /\ has_live_process (fst (run stop times_out w)) = false
  /\ map signals (procs (fst (run stop times_out w))) = [[SIGTERM; SIGKILL]].
Proof.
  cbv zeta. split; [reflexivity|]. split; [reflexivity|].
  destruct (stop_leaves_no_live_child times_out times_out
              (fst (run start (spawns 4242) World_init)) eq_refl)
    as (_ & Hstate & Hdead & _ & _ & Hlive & _).
  split; [exact Hstate|]. split; [exact Hdead|].
  destruct (Hlive 0 {| pid := 4242; returncode := None; signals := [] |}
              eq_refl eq_refl eq_refl) as [-> _].
  reflexivity.
Defined.

Lemma has_live_process_after_spawn (w w' : World) (p : Z) :
  process (self w') = Some (length (procs w)) ->
  procs w' = (procs w ++ [{| pid := p; returncode := None; signals := [] |}])%list ->
  has_live_process w' = true.
Proof.
  intros Hproc Hprocs. unfold has_live_process, proc_returncode.
  rewrite Hproc, Hprocs, list_lookup_middle by done. by apply bool_decide_eq_true.
Qed.

(** X11: [start()] does nothing while a live child is recorded: the world
    is left exactly as it was, so nothing is spawned and nothing is logged;
    in particular a [start()] that follows a successful [start()] is a
    no-op. *)
Theorem start_is_noop_when_live (env env2 : Env) (w : World) (p : Z) :
  (has_live_process w = true -> run start env w = (w, Finished tt))
  /\ (has_live_process w = false -> spawn_answer env = inr p ->
      has_live_process (fst (run start env w)) = true
      /\ run start env2 (fst (run start env w))
         = (fst (run start env w), Finished tt)).
Proof.
  split; [apply run_start_live|].
  intros Hlive Hspawn.
  destruct (run_start_success env w p Hlive Hspawn)
    as (w' & -> & _ & Hproc & Hprocs & _ & _).
  cbn [fst]. assert (Hlive' := has_live_process_after_spawn w w' p Hproc Hprocs).
  split; [done | by apply run_start_live].
Qed.

Lemma start_is_noop_when_live_witness :
  has_live_process World_init = false
  /\ spawn_answer (spawns 4242) = inr 4242%Z
  /\ run start (spawns 7) (fst (run start (spawns 4242) World_init))
     = (fst (run start (spawns 4242) World_init), Finished tt).
Proof.
  split; [reflexivity|]. split; [reflexivity|].
  exact (proj2 (proj2 (start_is_noop_when_live (spawns 4242) (spawns 7) World_init 4242)
                  eq_refl eq_refl)).
Defined.

Lemma filter_at_most_one {A : Type} (P : A -> Prop) `{forall x, Decision (P x)}
    (l : list A) :
  (forall i j x y, l !! i = Some x -> P x -> l !! j = Some y -> P y -> i = j) ->
  length (filter P l) <= 1.
Proof.
  induction l as [|x l IH]; intros Huniq; [cbn; lia|].
  rewrite filter_cons. destruct (decide (P x)) as [Hx|Hx].
  - assert (Hnone : filter P l = []).
    { destruct (filter P l) as [|y l'] eqn:Hf; [done|]. exfalso.
      assert (Hy : y ∈ filter P l) by (rewrite Hf; apply elem_of_cons; by left).
      apply list_elem_of_filter in Hy as [Hpy Hy].
      apply list_elem_of_lookup in Hy as [j Hj].
      by specialize (Huniq 0 (S j) x y eq_refl Hx Hj Hpy). }
    rewrite Hnone. cbn. lia.
  - apply IH. intros i j a b Hi Ha Hj Hb.
    specialize (Huniq (S i) (S j) a b Hi Ha Hj Hb). lia.
Qed.

Lemma start_keeps_one_child (env : Env) (w : World) :
  valid_handle w = true -> only_recorded_child_lives w ->
  valid_handle (fst (run start env w)) = true
  /\ only_recorded_child_lives (fst (run start env w)).
Proof.
  intros Hvalid Hinv. destruct (has_live_process w) eqn:Hlive.
  - by rewrite run_start_live.
  - destruct (spawn_answer env) as [msg|p] eqn:Hspawn.
    + by rewrite (run_start_failure env w msg).
    + destruct (run_start_success env w p Hlive Hspawn)
        as (w' & -> & _ & Hproc & Hprocs & _ & _).
      cbn [fst]. split.
      * unfold valid_handle. rewrite Hproc, Hprocs, length_app. cbn.
        apply Nat.ltb_lt. lia.
      * intros h q Hq Hrc. rewrite Hprocs in Hq. rewrite Hproc.
        apply lookup_app_Some in Hq as [Hq|[Hge Hq]].
        -- exfalso. pose proof (Hinv h q Hq Hrc) as Hrec.
           unfold has_live_process, proc_returncode in Hlive.
           rewrite Hrec, Hq, Hrc in Hlive. by apply bool_decide_eq_false in Hlive.
        -- destruct (h - length (procs w)) as [|n] eqn:Hn; [|done].
           f_equal. lia.
Qed.

Lemma stop_keeps_one_child (env : Env) (w : World) :
  valid_handle w = true -> only_recorded_child_lives w ->
  valid_handle (fst (run stop env w)) = true
  /\ only_recorded_child_lives (fst (run stop env w)).
Proof.
  intros Hvalid Hinv. destruct (has_live_process w) eqn:Hlive.
  - destruct (has_live_process_lookup w Hvalid Hlive) as (h & p & Hproc & Hp & Hrc).
    rewrite (run_stop_live env w h p Hproc Hp Hrc). cbn [fst].
    assert (Hlt : h < length (procs w)) by (by eapply lookup_lt_Some).
    split.
    + unfold valid_handle. cbn. rewrite length_insert. by apply Nat.ltb_lt.
    + intros h' q Hq Hrc'. cbn in *.
      destruct (decide (h = h')) as [<-|Hne].
      * rewrite list_lookup_insert_eq in Hq by done. by injection Hq as <-.
      * rewrite list_lookup_insert_ne in Hq by done.
        pose proof (Hinv h' q Hq Hrc') as Hrec. congruence.
  - by rewrite run_stop_idle.
Qed.

Lemma child_exit_keeps_one_child (h : nat) (code : Z) (w : World) :
  valid_handle w = true -> only_recorded_child_lives w ->
  valid_handle (child_exit h code w) = true
  /\ only_recorded_child_lives (child_exit h code w).
Proof.
  intros Hvalid Hinv. unfold child_exit.
  destruct (proc_returncode w h); [done|]. split.
  - unfold valid_handle in *. cbn. by rewrite length_alter.
  - intros h' q Hq Hrc. cbn in *.
    destruct (decide (h = h')) as [<-|Hne].
    + rewrite list_lookup_alter_eq in Hq.
      destruct (procs w !! h); [|done]. by injection Hq as <-.
    + rewrite list_lookup_alter_ne in Hq by done. exact (Hinv h' q Hq Hrc).
Qed.

Lemma run_calls_keep_one_child (calls : list call) :
  forall w, valid_handle w = true -> only_recorded_child_lives w ->
    valid_handle (run_calls calls w) = true
    /\ only_recorded_child_lives (run_calls calls w).
Proof.
  induction calls as [|c calls IH]; intros w Hvalid Hinv; [done|].
  unfold run_calls in *. cbn [fold_left]. apply IH.
  - destruct c as [[| |] env|h code]; cbn [run_call method].
    + by apply start_keeps_one_child.
    + by apply stop_keeps_one_child.
    + destruct (run_restart env w) as (w1 & Hstop & _ & ->).
      pose proof (stop_keeps_one_child env w Hvalid Hinv) as [Hv1 Hi1].
      rewrite Hstop in Hv1, Hi1. cbn [fst] in Hv1, Hi1.
      by apply start_keeps_one_child.
    + by apply child_exit_keeps_one_child.
  - destruct c as [[| |] env|h code]; cbn [run_call method].
    + by apply start_keeps_one_child.
    + by apply stop_keeps_one_child.
    + destruct (run_restart env w) as (w1 & Hstop & _ & ->).
      pose proof (stop_keeps_one_child env w Hvalid Hinv) as [Hv1 Hi1].
      rewrite Hstop in Hv1, Hi1. cbn [fst] in Hv1, Hi1.
      by apply start_keeps_one_child.
    + by apply child_exit_keeps_one_child.
Qed.

(** X12: calls that do not overlap never leave two children running.
    After any sequence of [start()], [stop()] and [restart()] calls, each
    run to its end before the next begins, with children exiting in
    between, at most one child is running, and it is the one whose pid
    [get_status()] reports. *)
Theorem sequential_calls_keep_one_child (calls : list call) :
  length (live_children (run_calls calls World_init)) <= 1
  /\ (forall p, p ∈ live_children (run_calls calls World_init) ->
        status_pid (get_status (run_calls calls World_init)) = Some (pid p)).
Proof.
  destruct (run_calls_keep_one_child calls World_init) as [Hvalid Hinv];
    [done | by intros h p Hp |].
  set (w := run_calls calls World_init) in *. split.
  - apply filter_at_most_one. intros i j x y Hi Hx Hj Hy.
    pose proof (Hinv i x Hi Hx) as H1. pose proof (Hinv j y Hj Hy) as H2.
    congruence.
  - intros p [Hrc Hin]%list_elem_of_filter.
    apply list_elem_of_lookup in Hin as [h Hh].
    unfold get_status. cbn. by rewrite (Hinv h p Hh Hrc), Hh, Hrc.
Qed.

(** ** The output reader *)

Lemma resume_reader_first (i h : nat) (env : Env) (w : World) :
  tasks w !! i = Some (Ready _read_output) -> process (self w) = Some h ->
  resume i env w = set_tasks (fun ts => <[i := reader_waiting h]> ts) w.
Proof.
  intros Hi Hproc. unfold resume. rewrite Hi.
  unfold _read_output. cbn. rewrite Hproc. reflexivity.
Qed.

Lemma resume_reader_line (i h : nat) (line : string) (w : World) :
  tasks w !! i = Some (reader_waiting h) -> process (self w) = Some h ->
  resume i (outputs line) w = fst (exec_op (LogsAppend line) w).
Proof.
  intros Hi Hproc. unfold resume. rewrite Hi.
  unfold reader_waiting. cbn. rewrite Hproc. cbn.
  unfold set_tasks, set_self. cbn. f_equal.
  apply list_insert_id. exact Hi.
Qed.

Lemma resume_reader_eof (i h : nat) (p : Process) (code : Z) (w : World) :
  tasks w !! i = Some (reader_waiting h) -> process (self w) = Some h ->
  procs w !! h = Some p -> returncode p = Some code ->
  resume i end_of_output w
  = set_tasks (fun ts => <[i := Done]> ts)
      (if GatewayState_eqb (state (self w)) running
       then fst (exec_op (LogsAppend (exit_line code))
                   (fst (exec_op (SetState error) w)))
       else w).
Proof.
  intros Hi Hproc Hp Hrc. unfold resume. rewrite Hi.
  unfold reader_waiting. cbn. rewrite Hproc. cbn.
  unfold proc_returncode. rewrite Hp, Hrc.
  by destruct (GatewayState_eqb (state (self w)) running).
Qed.

Lemma exec_reader_lines (i h : nat) (lines : list string) :
  forall w, tasks w !! i = Some (reader_waiting h) -> process (self w) = Some h ->
    exec (map (fun line => Resume i (outputs line)) lines) w = log_lines lines w.
Proof.
  induction lines as [|line lines IH]; intros w Hi Hproc; [done|].
  unfold exec, log_lines in *. cbn [map fold_left step].
  rewrite (resume_reader_line i h line w Hi Hproc). by apply IH.
Qed.

Lemma log_lines_keeps (lines : list string) :
  forall w, tasks (log_lines lines w) = tasks w
            /\ procs (log_lines lines w) = procs w
            /\ process (self (log_lines lines w)) = process (self w)
            /\ state (self (log_lines lines w)) = state (self w).
Proof.
  induction lines as [|line lines IH]; intros w; [done|].
  unfold log_lines in *. cbn [fold_left].
  destruct (IH (fst (exec_op (LogsAppend line) w))) as (-> & -> & -> & ->). done.
Qed.

Lemma log_lines_app (l1 l2 : list string) (w : World) :
  log_lines (l1 ++ l2) w = log_lines l2 (log_lines l1 w).
Proof. unfold log_lines. apply fold_left_app. Qed.

(** X13: a child that exits behind the supervisor's back is reported.  The
    reader task logs every line it reads, in order; when the output ends
    after the child has exited and the state is still ["running"], it sets
    the state to ["error"] and logs the exit code, and [get_status()] shows
    no pid; in any other state (a [stop()] is under way or done) it leaves
    the state alone and logs nothing more. *)
Theorem reader_reports_unexpected_exit
    (i h : nat) (p : Process) (lines : list string) (code : Z) (w : World) :
  tasks w !! i = Some (Ready _read_output) ->
  process (self w) = Some h -> procs w !! h = Some p -> returncode p = None ->
  tasks (exec (reader_schedule i h lines code) w) !! i = Some Done
  /\ (state (self w) = running ->
      state (self (exec (reader_schedule i h lines code) w)) = error
      /\ api_logs (exec (reader_schedule i h lines code) w)
         = api_logs (log_lines (lines ++ [exit_line code]) w)
      /\ status_pid (get_status (exec (reader_schedule i h lines code) w)) = None)
  /\ (state (self w) <> running ->
      state (self (exec (reader_schedule i h lines code) w)) = state (self w)
      /\ api_logs (exec (reader_schedule i h lines code) w)
         = api_logs (log_lines lines w)).
Proof.
  intros Hi Hproc Hp Hrc.
  assert (Hlt : i < length (tasks w)) by (by eapply lookup_lt_Some).
  unfold reader_schedule, exec. cbn [fold_left step].
  rewrite (resume_reader_first i h end_of_output w Hi Hproc).
  set (w1 := set_tasks _ w).
  assert (Hi1 : tasks w1 !! i = Some (reader_waiting h))
    by (by apply list_lookup_insert_eq).
  rewrite fold_left_app.
  change (fold_left step (map _ lines) w1)
    with (exec (map (fun line => Resume i (outputs line)) lines) w1).
  rewrite (exec_reader_lines i h lines w1 Hi1 Hproc).
  destruct (log_lines_keeps lines w1) as (Htasks & Hprocs & Hproc2 & Hstate2).
  set (w2 := log_lines lines w1) in *.
  cbn [fold_left step]. unfold child_exit at 1 2 3 4 5 6.
  assert (Hrc2 : proc_returncode w2 h = None).
  { unfold proc_returncode. rewrite Hprocs. cbn. by rewrite Hp. }
  rewrite Hrc2.
  set (w3 := set_procs _ w2).
  assert (Hi3 : tasks w3 !! i = Some (reader_waiting h)) by (cbn; by rewrite Htasks).
  assert (Hproc3 : process (self w3) = Some h) by (cbn; by rewrite Hproc2).
  assert (Hp3 : procs w3 !! h = Some (set_returncode code p)).
  { cbn. rewrite Hprocs. cbn. by rewrite list_lookup_alter_eq, Hp. }
  rewrite (resume_reader_eof i h _ code w3 Hi3 Hproc3 Hp3 eq_refl).
  assert (Hstate3 : state (self w3) = state (self w)) by (cbn; by rewrite Hstate2).
  assert (Hlogs3 : logs (self w3) = logs (self (log_lines lines w))).
  { cbn. subst w2. by rewrite !log_lines_logs. }
  rewrite Hstate3. clearbody w3. split; [|split].
  - assert (Hlt3 : i < length (tasks w3)) by (by eapply lookup_lt_Some).
    destruct (GatewayState_eqb (state (self w)) running);
      cbn [tasks set_tasks exec_op set_self fst];
      by apply list_lookup_insert_eq.
  - intros Hrun. rewrite Hrun. cbn [GatewayState_eqb].
    split; [done|]. split.
    + unfold api_logs. rewrite log_lines_app. cbn. by rewrite Hlogs3.
    + apply get_status_no_live_process.
      unfold has_live_process, proc_returncode. cbn [self set_tasks exec_op set_self fst process procs].
      rewrite Hproc3. cbn [procs] in Hp3. by rewrite Hp3.
  - intros Hnot.
    assert (Heqb : GatewayState_eqb (state (self w)) running = false)
      by (by destruct (state (self w))).
    rewrite Heqb. split; [done|]. unfold api_logs. cbn. by rewrite Hlogs3.
Qed.

Lemma reader_reports_unexpected_exit_witness :
  let w := fst (run start (spawns 4242) World_init) in
  tasks w !! 0 = Some (Ready _read_output)
  /\ process (self w) = Some 0
  /\ state (self w) = running
  /\ state (self (exec (reader_schedule 0 0 ["listening"; "ready"] 3) w)) = error
  /\ api_logs (exec (reader_schedule 0 0 ["listening"; "ready"] 3) w)
     = ["listening"; "ready"; "Gateway exited with code 3"].
Proof.
  cbv zeta. split; [reflexivity|]. split; [reflexivity|]. split; [reflexivity|].
  destruct (reader_reports_unexpected_exit 0 0
              {| pid := 4242; returncode := None; signals := [] |}
              ["listening"; "ready"] 3
              (fst (run start (spawns 4242) World_init))
              eq_refl eq_refl eq_refl eq_refl) as (_ & Hrun & _).
  destruct (Hrun eq_refl) as (Hstate & Hlogs & _).
  split; [exact Hstate|]. rewrite Hlogs. reflexivity.
Defined.

(** ** No task ever raises *)

Lemma never_raises_mono {R : Type} (b : bool) (c : coro R) :
  never_raises b c -> forall b', (b = true -> b' = true) -> never_raises b' c.
Proof.
  induction 1 as [R b r|R b X op k _ IH|R b X a k _ IH|R b body k _ IHbody _ IHk];
    intros b' Hb.
  - constructor.
  - constructor. intros w Hw. apply (IH w); auto.
  - constructor. intros x. by apply IH.
  - constructor; auto.
Qed.

Lemma process_set_op {X : Type} (op : Op X) (w : World) :
  process_set w = true -> process_set (fst (exec_op op w)) = true.
Proof. by destruct op. Qed.

Lemma process_set_resolve {X : Type} (a : Awaitable X) (env : Env) (w : World) :
  process_set (fst (resolve a env w)) = process_set w.
Proof.
  destruct a; cbn; try done.
  - by destruct (spawn_answer env).
  - destruct (proc_returncode w h) eqn:Hrc; [done|].
    destruct (exit_in_time env); [|done]. unfold child_exit. by rewrite Hrc.
  - destruct (proc_returncode w h) eqn:Hrc; [done|].
    unfold child_exit. by rewrite Hrc.
Qed.

Lemma process_set_advance {R : Type} (c : coro R) (w : World) :
  process_set w = true -> process_set (fst (advance c w)) = true.
Proof.
  apply (advance_later (fun w w' => process_set w = true -> process_set w' = true));
    auto. intros X op w0. apply process_set_op.
Qed.

Lemma never_raises_bind {R S : Type} (b : bool) (c : coro R) (f : R -> coro S) :
  never_raises b c ->
  (forall r b', (b = true -> b' = true) -> never_raises b' (f r)) ->
  never_raises b (bind c f).
Proof.
  intros Hc. revert S f.
  induction Hc as [R b r|R b X op k _ IH|R b X a k _ IH|R b body k Hbody _ _ IHk];
    intros S f Hf; cbn [bind].
  - by apply Hf.
  - constructor. intros w Hw. apply IH; [done|].
    intros r b' Hb'. apply Hf. intros Hb. apply Hb'.
    by apply process_set_op, Hw.
  - constructor. intros x. by apply IH.
  - constructor; [done | by apply IHk].
Qed.

Lemma advance_never_raises {R : Type} (b : bool) (c : coro R) :
  never_raises b c ->
  forall w, (b = true -> process_set w = true) ->
    status_never_raises (fst (advance c w)) (snd (advance c w)).
Proof.
  induction 1 as [R b r|R b X op k Hk IH|R b X a k Hk _|R b body k Hbody IHbody Hk IHk];
    intros w Hw; cbn [advance].
  - done.
  - specialize (IH w Hw (fst (exec_op op w)) (fun H => H)).
    by destruct (exec_op op w) as [w' x].
  - cbn. intros x. by apply (never_raises_mono b).
  - specialize (IHbody w Hw).
    pose proof (process_set_advance body w) as Hmono.
    destruct (advance body w) as [w' [[|]|e|X a kb|c']]; cbn [fst snd] in *.
    + constructor; eapply never_raises_mono; eauto.
    + apply IHk. auto.
    + done.
    + intros x. apply never_raises_bind; [done|].
      intros [|] b' Hb'.
      * constructor; eapply never_raises_mono; eauto.
      * eapply never_raises_mono; eauto.
    + apply never_raises_bind; [done|].
      intros [|] b' Hb'.
      * constructor; eapply never_raises_mono; eauto.
      * eapply never_raises_mono; eauto.
Qed.

Lemma never_raises_on_process {R : Type} (f : nat -> coro R) :
  (forall h, never_raises true (f h)) -> never_raises true (on_process f).
Proof.
  intros Hf. unfold on_process. cbn [bind perform].
  constructor. intros w Hw. cbn [exec_op fst snd].
  specialize (Hw eq_refl). unfold process_set in *.
  destruct (process (self w)) as [h|]; [|done]. apply Hf.
Qed.

Lemma never_raises_read_output (b : bool) : never_raises b _read_output.
Proof.
  unfold _read_output. constructor.
  - cbn [bind perform await]. constructor. intros w _. cbn [exec_op fst snd].
    destruct (process (self w)) as [h|]; [|constructor].
    constructor. intros [line|]; cbn [bind]; [|constructor].
    constructor. intros w' _. constructor.
  - cbn [bind perform]. constructor. intros w _. cbn [exec_op fst snd].
    destruct (process (self w)) as [h|]; [|constructor].
    constructor. intros w' _. cbn [exec_op fst snd].
    destruct (proc_returncode w' h) as [code|]; [|constructor].
    destruct (GatewayState_eqb (state (self w)) running); [|constructor].
    cbn [bind perform]. constructor. intros w'' _. constructor.
    intros w''' _. constructor.
Qed.

Lemma never_raises_perform {X : Type} (op : Op X) (b : bool) :
  never_raises b (perform op).
Proof. constructor. intros w _. constructor. Qed.

Lemma never_raises_await_ret {X : Type} (a : Awaitable X) (b : bool) :
  never_raises b (await a).
Proof. constructor. intros x. constructor. Qed.

Lemma never_raises_seq {R S : Type} (c : coro R) (f : R -> coro S) :
  (forall b, never_raises b c) -> (forall r b, never_raises b (f r)) ->
  forall b, never_raises b (bind c f).
Proof. intros Hc Hf b. apply never_raises_bind; auto. Qed.

Lemma never_raises_true_bind {R S : Type} (c : coro R) (f : R -> coro S) :
  never_raises true c -> (forall r, never_raises true (f r)) ->
  never_raises true (bind c f).
Proof.
  intros Hc Hf. apply never_raises_bind; [done|].
  intros r b' Hb'. by rewrite (Hb' eq_refl).
Qed.

Lemma never_raises_process_is_live (b : bool) : never_raises b process_is_live.
Proof.
  unfold process_is_live. cbn [bind perform]. constructor. intros w _.
  cbn [exec_op fst snd]. destruct (process (self w)) as [h|]; [|constructor].
  constructor. intros w' _. constructor.
Qed.

Lemma never_raises_start (b : bool) : never_raises b start.
Proof.
  unfold start. revert b. apply never_raises_seq; [apply never_raises_process_is_live|].
  intros [|]; [constructor|].
  apply never_raises_seq; [apply never_raises_perform|]. intros _.
  apply never_raises_seq; [apply never_raises_await_ret|].
  intros [e|h].
  - apply never_raises_seq; [apply never_raises_perform|]. intros _.
    apply never_raises_perform.
  - repeat (apply never_raises_seq; [apply never_raises_perform|]; intros ?).
    apply never_raises_perform.
Qed.

(** [stop()] once it has found a live child. *)
Lemma never_raises_stop_live :
  never_raises true
    (perform (SetState stopping);;
     on_process (fun h => perform (Terminate h));;
     r <- on_process (fun h => await (WaitFor h 10));;
     match r with
     | Some _ => Ret tt
     | None =>
         on_process (fun h => perform (Kill h));;
         on_process (fun h => await (Wait h));;
         Ret tt
     end;;
     perform (SetState stopped);;
     perform (SetStartTime None)).
Proof.
  apply never_raises_true_bind; [apply never_raises_perform|]. intros _.
  apply never_raises_true_bind.
  { apply never_raises_on_process. intros h. apply never_raises_perform. }
  intros _. apply never_raises_true_bind.
  { apply never_raises_on_process. intros h. apply never_raises_await_ret. }
  intros r. apply never_raises_true_bind.
  { destruct r; [constructor|].
    apply never_raises_true_bind.
    { apply never_raises_on_process. intros h. apply never_raises_perform. }
    intros _. apply never_raises_true_bind; [|constructor].
    apply never_raises_on_process. intros h. apply never_raises_await_ret. }
  intros _. apply never_raises_true_bind; [apply never_raises_perform|].
  intros _. apply never_raises_perform.
Qed.

Lemma never_raises_stop (b : bool) : never_raises b stop.
Proof.
  unfold stop, process_is_live. cbn [bind perform].
  constructor. intros w _. cbn [exec_op fst snd].
  destruct (process (self w)) as [h|] eqn:Hproc; cbn [bind negb].
  - assert (Hset : process_set w = true) by (unfold process_set; by rewrite Hproc).
    rewrite Hset. constructor. intros w' Hw'. cbn [exec_op fst snd].
    rewrite (Hw' eq_refl).
    destruct (bool_decide (proc_returncode w' h = None)); cbn [negb].
    + apply never_raises_stop_live.
    + apply never_raises_perform.
  - apply never_raises_perform.
Qed.

Lemma never_raises_restart (b : bool) : never_raises b restart.
Proof.
  unfold restart. revert b.
  apply never_raises_seq; [apply never_raises_stop|]. intros _.
  apply never_raises_seq; [apply never_raises_perform|]. intros _.
  apply never_raises_start.
Qed.

Lemma task_never_raises_mono (w w' : World) (t : task) :
  (process_set w = true -> process_set w' = true) ->
  task_never_raises w t -> task_never_raises w' t.
Proof.
  intros Hmono. destruct t as [c|X a k| |e]; cbn; try done.
  - intros Hc. by apply (never_raises_mono (process_set w)).
  - intros Hk x. by apply (never_raises_mono (process_set w)).
Qed.

Lemma advance_new_tasks {R : Type} (c : coro R) (w : World) :
  exists n, tasks (fst (advance c w))
            = (tasks w ++ replicate n (Ready _read_output))%list.
Proof.
  apply (advance_later
           (fun w w' => exists n, tasks w'
                                  = (tasks w ++ replicate n (Ready _read_output))%list)).
  - intros w0. exists 0. by rewrite app_nil_r.
  - intros w1 w2 w3 [n Hn] [m Hm]. exists (n + m).
    by rewrite Hm, Hn, <- app_assoc, replicate_add.
  - intros X op w0. destruct op; try (exists 0; by rewrite app_nil_r).
    by exists 1.
Qed.

(** Running task [i] one step further keeps the table free of tasks that
    can raise. *)
Lemma advance_keeps_tasks (i : nat) (c : coro unit) (w0 w : World) :
  (process_set w0 = true -> process_set w = true) ->
  tasks w = tasks w0 ->
  Forall (task_never_raises w0) (tasks w0) ->
  never_raises (process_set w) c ->
  Forall (task_never_raises
            (set_tasks (fun ts => <[i := task_of_status (snd (advance c w))]> ts)
               (fst (advance c w))))
    (tasks (set_tasks (fun ts => <[i := task_of_status (snd (advance c w))]> ts)
              (fst (advance c w)))).
Proof.
  intros Hmono Htasks Hpool Hc.
  pose proof (advance_never_raises _ c Hc w (fun H => H)) as Hstatus.
  pose proof (process_set_advance c w) as Hmono'.
  destruct (advance_new_tasks c w) as [n Hn].
  destruct (advance c w) as [w' s]. cbn [fst snd] in *.
  cbn [tasks set_tasks].
  assert (Hsame : forall t, task_never_raises
                              (set_tasks (fun ts => <[i := task_of_status s]> ts) w') t
                            <-> task_never_raises w' t) by (by intros [| | |]).
  eapply Forall_impl; [|intros t Ht; apply Hsame; exact Ht].
  apply Forall_insert.
  - rewrite Hn, Htasks. apply Forall_app. split.
    + eapply Forall_impl; [exact Hpool|]. intros t.
      apply task_never_raises_mono. auto.
    + apply Forall_replicate. cbn. apply never_raises_read_output.
  - destruct s; cbn in *; done.
Qed.

Lemma step_keeps_tasks (w : World) (ev : event) :
  Forall (task_never_raises w) (tasks w) ->
  Forall (task_never_raises (step w ev)) (tasks (step w ev)).
Proof.
  intros Hpool. destruct ev as [op|i env|h code|t]; cbn [step].
  - cbn [tasks set_tasks]. apply Forall_app. split; [exact Hpool|].
    apply Forall_singleton. cbn.
    destruct op; [apply never_raises_start | apply never_raises_stop
                 | apply never_raises_restart].
  - unfold resume. destruct (tasks w !! i) as [[c|X a k| |e]|] eqn:Hi; try done.
    + assert (Hc : task_never_raises w (Ready c)).
      { rewrite Forall_forall in Hpool. apply Hpool.
        by eapply list_elem_of_lookup_2. }
      pose proof (advance_keeps_tasks i c w w (fun H => H) eq_refl Hpool Hc) as Hkeep.
      by destruct (advance c w).
    + assert (Hk : task_never_raises w (Suspended a k)).
      { rewrite Forall_forall in Hpool. apply Hpool.
        by eapply list_elem_of_lookup_2. }
      pose proof (process_set_resolve a env w) as Hset.
      assert (Htasks : tasks (fst (resolve a env w)) = tasks w).
      { destruct a; cbn; try done.
        - by destruct (spawn_answer env).
        - destruct (proc_returncode w h) eqn:Hrc; [done|].
          destruct (exit_in_time env); [|done]. unfold child_exit. by rewrite Hrc.
        - destruct (proc_returncode w h) eqn:Hrc; [done|].
          unfold child_exit. by rewrite Hrc. }
      destruct (resolve a env w) as [w1 x]. cbn [fst] in *.
      assert (Hkx : never_raises (process_set w1) (k x)) by (rewrite Hset; apply Hk).
      pose proof (advance_keeps_tasks i (k x) w w1
                    (fun H => eq_trans Hset H) Htasks Hpool Hkx) as Hkeep.
      by destruct (advance (k x) w1).
  - unfold child_exit. by destruct (proc_returncode w h).
  - exact Hpool.
Qed.

Lemma exec_keeps_tasks (evs : list event) :
  forall w, Forall (task_never_raises w) (tasks w) ->
    Forall (task_never_raises (exec evs w)) (tasks (exec evs w)).
Proof.
  induction evs as [|ev evs IH]; intros w Hpool; [done|].
  unfold exec in *. cbn [fold_left]. by apply IH, step_keeps_tasks.
Qed.

(** X14: no lifecycle call ever ends in an exception.  Under every
    schedule of the event loop, however the [start()], [stop()],
    [restart()] and reader tasks interleave and whatever the outside
    answers, no task of the table has crashed: every [self.process.<...>]
    of [stop()] finds a process.  And a call run on its own returns
    normally from every world. *)
Theorem lifecycle_calls_never_raise
    (evs : list event) (op : lifecycle) (env : Env) (w : World) :
  Forall (fun t => forall exn, t <> Crashed exn) (tasks (exec evs World_init))
  /\ snd (run (method op) env w) = Finished tt.
Proof.
  split.
  - eapply Forall_impl; [apply (exec_keeps_tasks evs World_init); constructor|].
    by intros [| | |].
  - destruct op; cbn [method].
    + by destruct (run_start_returns env w) as (w2 & -> & _).
    + by destruct (run_stop_returns env w) as (w1 & -> & _).
    + destruct (run_restart env w) as (w1 & _ & _ & ->).
      by destruct (run_start_returns env (fst (exec_op IncrRestartCount w1)))
        as (w2 & -> & _).
Qed.
